(** * Forum backend: posts, threaded comments, communities, votes

    A shallow embedding of the request handlers of
    [src/controllers/posts.js], [src/controllers/comments.js] and
    [src/controllers/communities.js], together with the three schemas they
    work on ([src/models/Post.js], [src/models/Comment.js] and the community
    schema), followed by the properties of the comment / vote / membership
    bookkeeping.

    Handlers are functions from a store and a request to a new store and a
    response.  The document store is a record of three collections; each
    collection is the list of its documents in insertion order. *)

From Stdlib Require Import Ascii.
From stdpp Require Import base gmap strings list pretty.
From stdpp Require Import sorting.

Open Scope Z_scope.

(** ** Request bodies: JSON values and JavaScript truthiness *)

(** [req.body] is what [express.json()] parsed.  Numbers are restricted to
    integers. *)
#[warnings="-register-all"] Inductive json :=
| JNull
| JBool (b : bool)
| JNum (n : Z)
| JStr (s : string)
| JArr (xs : list json)
| JObj (fields : list (string * json)).

(** A JavaScript object used as a map; a key that is absent reads as
    [undefined], here [None]. *)
Abbreviation Body := (gmap string json).

(** [if (v)] for a property read [v]. *)
Definition truthy (v : option json) : bool :=
  match v with
  | None => false
  | Some JNull => false
  | Some (JBool b) => b
  | Some (JNum n) => negb (n =? 0)
  | Some (JStr s) => negb (String.eqb s "")
  | Some (JArr _) => true
  | Some (JObj _) => true
  end.

(** ** Object identifiers *)

(** An ObjectId is a 96-bit value, written as 24 hexadecimal digits. *)
Definition ObjectId := N.

Definition hexDigit (a : ascii) : option N :=
  let n := N_of_ascii a in
  if (48 <=? n)%N && (n <=? 57)%N then Some (n - 48)%N
  else if (97 <=? n)%N && (n <=? 102)%N then Some (n - 87)%N
  else if (65 <=? n)%N && (n <=? 70)%N then Some (n - 55)%N
  else None.

Fixpoint parseHex (s : string) (acc : N) : option N :=
  match s with
  | EmptyString => Some acc
  | String a s' =>
      match hexDigit a with
      | Some d => parseHex s' (16 * acc + d)%N
      | None => None
      end
  end.

(** The string form of an id, as it arrives in [req.params.id] or in a
    body; [None] is the driver's CastError. *)
Definition parseObjectId (s : string) : option ObjectId :=
  if (String.length s =? 24)%nat then parseHex s 0%N else None.

(** ** Exceptions *)

(** What the calls of a handler throw: the errors of the store layer, and
    the TypeError of reading a property of [null].  Every handler body is
    wrapped in [try { ... } catch (err) { next(err) }]. *)
Inductive Exception :=
| CastError
| ValidationError
| TypeError
| DuplicateKey.

Inductive result (A : Type) :=
| Return (a : A)
| Throw (e : Exception).
Arguments Return {A} a.
Arguments Throw {A} e.

(** Sequencing of calls that may throw. *)
Definition bind {A B} (m : result A) (k : A → result B) : result B :=
  match m with
  | Return a => k a
  | Throw e => Throw e
  end.

Notation "'await' x := m 'in' k" := (bind m (λ x, k))
  (at level 10, x name, m at level 100, k at level 200,
   format "'[v' 'await'  x  :=  m  'in'  '/' k ']'").

(** ** Schema types: casting and setters *)

(** A String path: a value with its own [toString] is converted, arrays
    and plain objects are refused, [null] stays [null]. *)
Definition castString (v : json) : result (option string) :=
  match v with
  | JNull => Return None
  | JStr s => Return (Some s)
  | JBool true => Return (Some "true"%string)
  | JBool false => Return (Some "false"%string)
  | JNum n => Return (Some (pretty n))
  | JArr _ => Throw CastError
  | JObj _ => Throw CastError
  end.

(** A Number path.  Only JSON numbers and [null] are modelled; any other
    value is taken as a cast failure. *)
Definition castNumber (v : json) : result (option Z) :=
  match v with
  | JNull => Return None
  | JNum n => Return (Some n)
  | _ => Throw CastError
  end.

(** An ObjectId path.  Only the 24-digit string form and [null] are
    modelled. *)
Definition castObjectId (v : json) : result (option ObjectId) :=
  match v with
  | JNull => Return None
  | JStr s =>
      match parseObjectId s with
      | Some id => Return (Some id)
      | None => Throw CastError
      end
  | _ => Throw CastError
  end.

(** An array-of-ObjectId path; only JSON arrays of id strings are
    modelled. *)
Fixpoint castObjectIds (xs : list json) : result (list ObjectId) :=
  match xs with
  | [] => Return []
  | JStr s :: xs' =>
      match parseObjectId s with
      | Some id => await ids := castObjectIds xs' in Return (id :: ids)
      | None => Throw CastError
      end
  | _ :: _ => Throw CastError
  end.

Definition castObjectIdArray (v : json) : result (list ObjectId) :=
  match v with
  | JArr xs => castObjectIds xs
  | _ => Throw CastError
  end.

(** The [trim: true] setter (ASCII white space). *)
Fixpoint trimStart (s : string) : string :=
  match s with
  | EmptyString => EmptyString
  | String a s' => if Ascii.is_space a then trimStart s' else s
  end.

Definition trim (s : string) : string :=
  String.rev (trimStart (String.rev (trimStart s))).

(** [required: true] on a path whose value was cast to [a]. *)
Definition required {A} (a : option A) : result A :=
  match a with
  | Some x => Return x
  | None => Throw ValidationError
  end.

Definition requiredString (a : option string) : result string :=
  match a with
  | Some s => if String.eqb s "" then Throw ValidationError else Return s
  | None => Throw ValidationError
  end.

Definition maxlength (n : nat) (s : string) : result string :=
  if (String.length s <=? n)%nat then Return s else Throw ValidationError.

Definition minlength (n : nat) (s : string) : result string :=
  if (n <=? String.length s)%nat then Return s else Throw ValidationError.

(** [Array.prototype.includes] on an array of ids, for the string form of
    an id: the elements are compared by value. *)
Definition includes (arr : list ObjectId) (id : ObjectId) : bool :=
  bool_decide (id ∈ arr).

(** [arr.filter(id => id.toString() !== uid)]. *)
Definition without (uid : ObjectId) (arr : list ObjectId) : list ObjectId :=
  filter (λ id, id ≠ uid) arr.

(** [arr.push(uid)]. *)
Definition push (arr : list ObjectId) (uid : ObjectId) : list ObjectId :=
  arr ++ [uid].

(** [arr.length], as a number. *)
Definition len {A} (arr : list A) : Z := Z.of_nat (length arr).

(** ** Collections *)

Section Collection.
Context {D : Type} (id_of : D → ObjectId).

(** [Model.findById(id)] for an id that is already an ObjectId. *)
Definition findDoc (coll : list D) (id : ObjectId) : option D :=
  List.find (λ d, bool_decide (id_of d = id)) coll.

(** [Model.findById(req.params.id)]: the string is cast first. *)
Definition findById (coll : list D) (rid : string) : result (option D) :=
  match parseObjectId rid with
  | Some id => Return (findDoc coll id)
  | None => Throw CastError
  end.

(** [Model.find(q)]. *)
Definition findMany (q : D → bool) (coll : list D) : list D :=
  List.filter q coll.

(** [Model.countDocuments(q)]. *)
Definition countDocuments (q : D → bool) (coll : list D) : Z :=
  len (findMany q coll).

(** [Model.deleteMany(q)]. *)
Definition deleteMany (q : D → bool) (coll : list D) : list D :=
  List.filter (λ d, negb (q d)) coll.

(** [doc.remove()]. *)
Definition removeDoc (d : D) (coll : list D) : list D :=
  List.filter (λ x, negb (bool_decide (id_of x = id_of d))) coll.

(** Writing back a document that was loaded from the collection. *)
Definition writeDoc (d : D) (coll : list D) : list D :=
  List.map (λ x, if bool_decide (id_of x = id_of d) then d else x) coll.

(** The unique index on [_id]. *)
Definition uniqueId (id : ObjectId) (coll : list D) : result unit :=
  match findDoc coll id with
  | Some _ => Throw DuplicateKey
  | None => Return tt
  end.

(** Inserting a new document. *)
Definition insertDoc (d : D) (coll : list D) : list D :=
  coll ++ [d].
End Collection.

(** A path of an update document: absent, or cast by its schema type. *)
Definition castPath {A} (cast : json → result A) (v : option json)
  : result (option A) :=
  match v with
  | None => Return None
  | Some j => await a := cast j in Return (Some a)
  end.

(** [$set] of one path: an absent path leaves the field as it is. *)
Definition setPath {D A} (set : A → D → D) (v : option A) (d : D) : D :=
  match v with
  | None => d
  | Some a => set a d
  end.

(** A required ObjectId path. *)
Definition castRef (j : json) : result ObjectId :=
  await a := castObjectId j in
  required a.

(** A Number path that holds a counter.  Setting it to [null] is not
    modelled. *)
Definition castCount (j : json) : result Z :=
  await n := castNumber j in
  required n.

(** A key of a body that is an update operator ([$set], [$unset],
    [$rename], ...): it starts with [$]. *)
Definition isOperator (key : string) : bool :=
  match key with
  | String "$"%char _ => true
  | _ => false
  end.

(** The body is a plain update document: its keys are paths, none of them
    is an update operator. *)
Definition plainUpdate (b : Body) : Prop :=
  map_Forall (λ key _, isOperator key = false) b.

(** ** The Post schema *)

Module Post.

Record t := mk {
  _id : ObjectId;
  title : string;
  content : option string;
  image : option string;
  url : option string;
  author : ObjectId;
  community : ObjectId;
  upvotes : list ObjectId;
  downvotes : list ObjectId;
  voteScore : Z;
  commentCount : Z
}.

Definition set_title (v : string) (p : t) : t :=
  mk (_id p) v (content p) (image p) (url p) (author p) (community p)
     (upvotes p) (downvotes p) (voteScore p) (commentCount p).
Definition set_content (v : option string) (p : t) : t :=
  mk (_id p) (title p) v (image p) (url p) (author p) (community p)
     (upvotes p) (downvotes p) (voteScore p) (commentCount p).
Definition set_image (v : option string) (p : t) : t :=
  mk (_id p) (title p) (content p) v (url p) (author p) (community p)
     (upvotes p) (downvotes p) (voteScore p) (commentCount p).
Definition set_url (v : option string) (p : t) : t :=
  mk (_id p) (title p) (content p) (image p) v (author p) (community p)
     (upvotes p) (downvotes p) (voteScore p) (commentCount p).
Definition set_author (v : ObjectId) (p : t) : t :=
  mk (_id p) (title p) (content p) (image p) (url p) v (community p)
     (upvotes p) (downvotes p) (voteScore p) (commentCount p).
Definition set_community (v : ObjectId) (p : t) : t :=
  mk (_id p) (title p) (content p) (image p) (url p) (author p) v
     (upvotes p) (downvotes p) (voteScore p) (commentCount p).
Definition set_upvotes (v : list ObjectId) (p : t) : t :=
  mk (_id p) (title p) (content p) (image p) (url p) (author p) (community p)
     v (downvotes p) (voteScore p) (commentCount p).
Definition set_downvotes (v : list ObjectId) (p : t) : t :=
  mk (_id p) (title p) (content p) (image p) (url p) (author p) (community p)
     (upvotes p) v (voteScore p) (commentCount p).
Definition set_voteScore (v : Z) (p : t) : t :=
  mk (_id p) (title p) (content p) (image p) (url p) (author p) (community p)
     (upvotes p) (downvotes p) v (commentCount p).
Definition set_commentCount (v : Z) (p : t) : t :=
  mk (_id p) (title p) (content p) (image p) (url p) (author p) (community p)
     (upvotes p) (downvotes p) (voteScore p) v.

(** [PostSchema.pre('save')]. *)
Definition preSave (p : t) : t :=
  set_voteScore (len (upvotes p) - len (downvotes p)) p.

(** [post.save()] on a post that was loaded from the collection.  The
    validation that precedes the hook is taken to pass: stored posts are
    assumed to satisfy the schema, and the handlers modify only [upvotes],
    [downvotes], [voteScore] and [commentCount], which have no
    validators.  A stored post that fails its own schema, on which
    [save()] throws, is outside this model. *)
Definition save (p : t) (coll : list t) : list t :=
  writeDoc _id (preSave p) coll.

(** The update document of [findByIdAndUpdate], cast by the schema and
    checked by the update validators ([runValidators: true]).  The body is
    read as a plain update document: its keys are the paths to set, and
    keys that are not schema paths are dropped; [createdAt] is not
    modelled.  Update operators among the keys are not modelled either:
    they are dropped here, while the store applies them.  The properties
    of what an update leaves as it was are therefore stated for bodies
    without them ([plainUpdate]). *)
Record Update := mkUpdate {
  u_title : option string;
  u_content : option (option string);
  u_image : option (option string);
  u_url : option (option string);
  u_author : option ObjectId;
  u_community : option ObjectId;
  u_upvotes : option (list ObjectId);
  u_downvotes : option (list ObjectId);
  u_voteScore : option Z;
  u_commentCount : option Z
}.

(** [title]: String, trimmed, required, at most 300 characters. *)
Definition castTitle (j : json) : result string :=
  await s := castString j in
  await s := requiredString (trim <$> s) in
  maxlength 300 s.

(** [content]: String, trimmed. *)
Definition castContent (j : json) : result (option string) :=
  await s := castString j in
  Return (trim <$> s).

Definition castUpdate (body : Body) : result Update :=
  await title := castPath castTitle (body !! "title") in
  await content := castPath castContent (body !! "content") in
  await image := castPath castString (body !! "image") in
  await url := castPath castString (body !! "url") in
  await author := castPath castRef (body !! "author") in
  await community := castPath castRef (body !! "community") in
  await upvotes := castPath castObjectIdArray (body !! "upvotes") in
  await downvotes := castPath castObjectIdArray (body !! "downvotes") in
  await voteScore := castPath castCount (body !! "voteScore") in
  await commentCount := castPath castCount (body !! "commentCount") in
  Return (mkUpdate title content image url author community
                   upvotes downvotes voteScore commentCount).

Definition applyUpdate (u : Update) (p : t) : t :=
  setPath set_commentCount (u_commentCount u)
 (setPath set_voteScore (u_voteScore u)
 (setPath set_downvotes (u_downvotes u)
 (setPath set_upvotes (u_upvotes u)
 (setPath set_community (u_community u)
 (setPath set_author (u_author u)
 (setPath set_url (u_url u)
 (setPath set_image (u_image u)
 (setPath set_content (u_content u)
 (setPath set_title (u_title u) p))))))))).

(** [Post.findByIdAndUpdate(id, body, { new: true, runValidators: true })]
    for the id of a stored post: the new collection and the updated
    document.  No save hook runs. *)
Definition findByIdAndUpdate (p : t) (body : Body) (coll : list t)
  : result (list t * t) :=
  await u := castUpdate body in
  let p' := applyUpdate u p in
  Return (writeDoc _id p' coll, p').

End Post.

(** ** The Comment schema *)

Module Comment.

Record t := mk {
  _id : ObjectId;
  content : string;
  author : ObjectId;
  post : ObjectId;
  parent : option ObjectId;
  upvotes : list ObjectId;
  downvotes : list ObjectId;
  voteScore : Z
}.

Definition set_upvotes (v : list ObjectId) (c : t) : t :=
  mk (_id c) (content c) (author c) (post c) (parent c)
     v (downvotes c) (voteScore c).
Definition set_downvotes (v : list ObjectId) (c : t) : t :=
  mk (_id c) (content c) (author c) (post c) (parent c)
     (upvotes c) v (voteScore c).
Definition set_voteScore (v : Z) (c : t) : t :=
  mk (_id c) (content c) (author c) (post c) (parent c)
     (upvotes c) (downvotes c) v.

(** [CommentSchema.pre('save')]. *)
Definition preSave (c : t) : t :=
  set_voteScore (len (upvotes c) - len (downvotes c)) c.

(** [comment.save()] on a comment that was loaded from the collection;
    as for posts, the validation is taken to pass. *)
Definition save (c : t) (coll : list t) : list t :=
  writeDoc _id (preSave c) coll.

(** [content]: String, trimmed, required. *)
Definition castContent (v : option json) : result string :=
  match v with
  | None => Throw ValidationError
  | Some j =>
      await s := castString j in
      requiredString (trim <$> s)
  end.

(** [post]: ObjectId, required, given in its string form. *)
Definition castPost (rid : string) : result ObjectId :=
  match parseObjectId rid with
  | Some id => Return id
  | None => Throw ValidationError
  end.

(** [Comment.create({ content, author, post, parent })]: the new document,
    with the defaults of the schema, validated and passed through the save
    hook.  [newId] is the identifier generated for it. *)
Definition create (newId : ObjectId) (content : option json)
    (author : ObjectId) (post : string) (parent : json) (coll : list t)
  : result t :=
  await content := castContent content in
  await post := castPost post in
  await parent := castObjectId parent in
  await _ := uniqueId _id newId coll in
  Return (preSave (mk newId content author post parent [] [] 0)).

End Comment.

(** ** The Community schema *)

Module Community.

(** [slug], [rules] and [createdAt] are not modelled: no handler modelled
    here reads them. *)
Record t := mk {
  _id : ObjectId;
  name : string;
  description : string;
  creator : ObjectId;
  moderators : list ObjectId;
  members : list ObjectId;
  memberCount : Z
}.

Definition set_name (v : string) (c : t) : t :=
  mk (_id c) v (description c) (creator c) (moderators c) (members c)
     (memberCount c).
Definition set_description (v : string) (c : t) : t :=
  mk (_id c) (name c) v (creator c) (moderators c) (members c)
     (memberCount c).
Definition set_creator (v : ObjectId) (c : t) : t :=
  mk (_id c) (name c) (description c) v (moderators c) (members c)
     (memberCount c).
Definition set_moderators (v : list ObjectId) (c : t) : t :=
  mk (_id c) (name c) (description c) (creator c) v (members c)
     (memberCount c).
Definition set_members (v : list ObjectId) (c : t) : t :=
  mk (_id c) (name c) (description c) (creator c) (moderators c) v
     (memberCount c).
Definition set_memberCount (v : Z) (c : t) : t :=
  mk (_id c) (name c) (description c) (creator c) (moderators c) (members c)
     v.

(** [CommunitySchema.pre('save')]: update member count. *)
Definition preSave (c : t) : t :=
  set_memberCount (len (members c)) c.

(** [community.save()] on a community that was loaded from the
    collection; as for posts, the validation is taken to pass. *)
Definition save (c : t) (coll : list t) : list t :=
  writeDoc _id (preSave c) coll.

(** [Community.findOne({ name })] for a string.  The filter is cast by
    the schema before it is sent: the [trim] setter of [name] applies to
    it, so that a name given with white space around it finds the
    community of the trimmed name. *)
Definition findOne (nm : string) (coll : list t) : option t :=
  List.find (λ c, String.eqb (name c) (trim nm)) coll.

(** [Community.findOne({ name: v })] for a value [v] of the body: the
    value is cast to a string and trimmed, as in [findOne]; [undefined]
    and [null] look for a community without name, and no stored community
    lacks a name.  An array or an object in the place of the name, which
    the store reads as [$in] and as query operators, is not modelled: the
    properties that depend on this lookup are stated for the other
    values. *)
Definition findOneByBody (v : option json) (coll : list t)
  : result (option t) :=
  match v with
  | None => Return None
  | Some j =>
      await nm := castString j in
      match nm with
      | None => Return None
      | Some nm => Return (findOne nm coll)
      end
  end.

(** The character class of [/^[a-zA-Z0-9_]+$/]. *)
Definition isWordChar (a : ascii) : bool :=
  let n := N_of_ascii a in
  ((48 <=? n)%N && (n <=? 57)%N) || ((65 <=? n)%N && (n <=? 90)%N)
  || ((97 <=? n)%N && (n <=? 122)%N) || (n =? 95)%N.

Definition matchName (s : string) : result string :=
  if negb (String.eqb s "") && forallb isWordChar (String.list_ascii_of_string s)
  then Return s else Throw ValidationError.

(** [name]: String, trimmed, required, 3 to 21 characters, letters, digits
    and underscores. *)
Definition castName (j : json) : result string :=
  await s := castString j in
  await s := requiredString (trim <$> s) in
  await s := minlength 3 s in
  await s := maxlength 21 s in
  matchName s.

(** [description]: String, required, at most 500 characters. *)
Definition castDescription (j : json) : result string :=
  await s := castString j in
  await s := requiredString s in
  maxlength 500 s.

(** The unique index on [name], for a document with identifier [id]. *)
Definition uniqueName (id : ObjectId) (nm : string) (coll : list t)
  : result unit :=
  if existsb (λ c, String.eqb (name c) nm && negb (bool_decide (_id c = id)))
             coll
  then Throw DuplicateKey else Return tt.

(** A path that [required: true] does not allow to be left out. *)
Definition requiredPath {A} (cast : json → result A) (v : option json)
  : result A :=
  match v with
  | None => Throw ValidationError
  | Some j => cast j
  end.

(** [Community.create(req.body)] once the handler has written the
    creator, the moderators and the members into the body: these three
    are given as ids.  A [memberCount] of the body is cast and then
    overwritten by the save hook. *)
Definition create (newId : ObjectId) (body : Body) (creator : ObjectId)
    (moderators members : list ObjectId) (coll : list t) : result t :=
  await nm := requiredPath castName (body !! "name") in
  await description := requiredPath castDescription (body !! "description") in
  await _ := castPath castNumber (body !! "memberCount") in
  await _ := uniqueId _id newId coll in
  await _ := uniqueName newId nm coll in
  Return (preSave (mk newId nm description creator moderators members 0)).

Record Update := mkUpdate {
  u_name : option string;
  u_description : option string;
  u_creator : option ObjectId;
  u_moderators : option (list ObjectId);
  u_members : option (list ObjectId);
  u_memberCount : option Z
}.

Definition castUpdate (body : Body) : result Update :=
  await nm := castPath castName (body !! "name") in
  await description := castPath castDescription (body !! "description") in
  await creator := castPath castRef (body !! "creator") in
  await moderators := castPath castObjectIdArray (body !! "moderators") in
  await members := castPath castObjectIdArray (body !! "members") in
  await memberCount := castPath castCount (body !! "memberCount") in
  Return (mkUpdate nm description creator moderators members memberCount).

Definition applyUpdate (u : Update) (c : t) : t :=
  setPath set_memberCount (u_memberCount u)
 (setPath set_members (u_members u)
 (setPath set_moderators (u_moderators u)
 (setPath set_creator (u_creator u)
 (setPath set_description (u_description u)
 (setPath set_name (u_name u) c))))).

(** [Community.findByIdAndUpdate(community._id, body,
    { new: true, runValidators: true })].  No save hook runs.  As for
    posts, the body is read as a plain update document and update
    operators among its keys are not modelled. *)
Definition findByIdAndUpdate (c : t) (body : Body) (coll : list t)
  : result (list t * t) :=
  await u := castUpdate body in
  await _ := match u_name u with
       | Some nm => uniqueName (_id c) nm coll
       | None => Return tt
       end in
  let c' := applyUpdate u c in
  Return (writeDoc _id c' coll, c').

End Community.

(** ** The store, requests and responses *)

Record Store := mkStore {
  communities : list Community.t;
  posts : list Post.t;
  comments : list Comment.t
}.

Definition set_communities (v : list Community.t) (s : Store) : Store :=
  mkStore v (posts s) (comments s).
Definition set_posts (v : list Post.t) (s : Store) : Store :=
  mkStore (communities s) v (comments s).
Definition set_comments (v : list Comment.t) (s : Store) : Store :=
  mkStore (communities s) (posts s) v.

(** What a handler reads of [req].  [user] is [req.user.id], the id of the
    authenticated user attached by [protect]; [invalid] tells whether the
    validators of the route left errors in the request, that is whether
    [validationResult(req).isEmpty()] is false. *)
Record Request := mkRequest {
  params_id : string;
  params_name : string;
  user : ObjectId;
  body : Body;
  invalid : bool
}.

(** The [data] of a successful response. *)
Inductive Data :=
| Empty
| Votes (voteScore upvotes downvotes : Z)
| Members (memberCount : Z)
| APost (p : Post.t)
| AComment (c : Comment.t)
| ACommunity (c : Community.t).

(** [res.status(n).json({ success: true, data })],
    [res.status(n).json({ success: false, error })],
    [res.status(400).json({ success: false, errors: errors.array() })] and
    [next(err)], which the error middleware answers with status 500. *)
Inductive Response :=
| Success (status : nat) (data : Data)
| Failure (status : nat) (error : string)
| Errors
| Next.

Definition status (r : Response) : nat :=
  match r with
  | Success n _ => n
  | Failure n _ => n
  | Errors => 400
  | Next => 500
  end.

(** [try { ... } catch (err) { next(err) }] around calls that throw before
    the handler has written anything: the store of the failed request is
    then the store it started from.  In this model the calls that throw
    are the casts, the validation of new documents and of updates, and the
    unique indexes, and in every handler they come before the first
    write; [save()] on a loaded document is taken not to throw (see
    [Post.save]), although in [addComment] and [deleteComment] it comes
    after a write.  The one throw after a write that the model has, the
    reading of a missing post in [deleteComment], is written out
    there. *)
Definition catch (s : Store) (m : result (Store * Response))
  : Store * Response :=
  match m with
  | Return r => r
  | Throw _ => (s, Next)
  end.

(** ** Handlers of [controllers/posts.js] and [controllers/comments.js] *)

(** [value] of a vote request, when it is a number. *)
Definition numberOf (v : option json) : option Z :=
  match v with
  | Some (JNum n) => Some n
  | _ => None
  end.

(** The vote bookkeeping that [votePost] and [voteComment] both carry out
    on the [upvotes] and [downvotes] of their document: remove an existing
    vote, then add the new one when it differs from the previous one or
    when there was none. *)
Definition castVote (value : Z) (uid : ObjectId)
    (ups downs : list ObjectId) : list ObjectId * list ObjectId :=
  let upvoted := includes ups uid in
  let downvoted := includes downs uid in
  let ups := if upvoted then without uid ups else ups in
  let downs := if downvoted then without uid downs else downs in
  if (value =? 1) && negb upvoted || (value =? -1) && negb downvoted
  then if value =? 1 then (push ups uid, downs) else (ups, push downs uid)
  else (ups, downs).

(** [POST /api/posts/:id/vote]. *)
Definition votePost (s : Store) (req : Request) : Store * Response :=
  match numberOf (body req !! "value") with
  | None => (s, Failure 400 "Vote value must be 1 or -1")
  | Some value =>
      if negb (value =? 1) && negb (value =? -1)
      then (s, Failure 400 "Vote value must be 1 or -1")
      else catch s (
        await post := findById Post._id (posts s) (params_id req) in
        match post with
        | None => Return (s, Failure 404 "Post not found")
        | Some post =>
            let v := castVote value (user req)
                       (Post.upvotes post) (Post.downvotes post) in
            let post := Post.set_downvotes v.2 (Post.set_upvotes v.1 post) in
            let post :=
              Post.set_voteScore
                (len (Post.upvotes post) - len (Post.downvotes post)) post in
            let s := set_posts (Post.save post (posts s)) s in
            Return (s, Success 200
                         (Votes (Post.voteScore post)
                                (len (Post.upvotes post))
                                (len (Post.downvotes post))))
        end)
  end.

(** [POST /api/comments/:id/vote]. *)
Definition voteComment (s : Store) (req : Request) : Store * Response :=
  match numberOf (body req !! "value") with
  | None => (s, Failure 400 "Vote value must be 1 or -1")
  | Some value =>
      if negb (value =? 1) && negb (value =? -1)
      then (s, Failure 400 "Vote value must be 1 or -1")
      else catch s (
        await comment := findById Comment._id (comments s) (params_id req) in
        match comment with
        | None => Return (s, Failure 404 "Comment not found")
        | Some comment =>
            let v := castVote value (user req)
                       (Comment.upvotes comment) (Comment.downvotes comment) in
            let comment :=
              Comment.set_downvotes v.2 (Comment.set_upvotes v.1 comment) in
            let comment :=
              Comment.set_voteScore
                (len (Comment.upvotes comment)
                 - len (Comment.downvotes comment)) comment in
            let s := set_comments (Comment.save comment (comments s)) s in
            Return (s, Success 200
                         (Votes (Comment.voteScore comment)
                                (len (Comment.upvotes comment))
                                (len (Comment.downvotes comment))))
        end)
  end.

(** [req.body.parent || null]. *)
Definition orNull (v : option json) : json :=
  match v with
  | Some j => if truthy v then j else JNull
  | None => JNull
  end.

(** [POST /api/posts/:id/comments]; [newId] is the identifier generated
    for the new comment.  The response carries the comment without the
    populated author. *)
Definition addComment (newId : ObjectId) (s : Store) (req : Request)
  : Store * Response :=
  if invalid req then (s, Errors)
  else catch s (
    await post := findById Post._id (posts s) (params_id req) in
    match post with
    | None => Return (s, Failure 404 "Post not found")
    | Some post =>
        await comment := Comment.create newId (body req !! "content") (user req)
                     (params_id req) (orNull (body req !! "parent"))
                     (comments s) in
        let s := set_comments (insertDoc comment (comments s)) s in
        let post := Post.set_commentCount (Post.commentCount post + 1) post in
        let s := set_posts (Post.save post (posts s)) s in
        Return (s, Success 201 (AComment comment))
    end).

(** The query [{ parent: id }]. *)
Definition hasParent (id : ObjectId) (c : Comment.t) : bool :=
  bool_decide (Comment.parent c = Some id).

(** The query [{ post: id }]. *)
Definition ofPost (id : ObjectId) (c : Comment.t) : bool :=
  bool_decide (Comment.post c = id).

(** [DELETE /api/comments/:id].  When the post of the comment is missing,
    reading [post.author] or [post.commentCount] throws: the former before
    anything is written, the latter after the replies are gone. *)
Definition deleteComment (s : Store) (req : Request) : Store * Response :=
  catch s (
    await comment := findById Comment._id (comments s) (params_id req) in
    match comment with
    | None => Return (s, Failure 404 "Comment not found")
    | Some comment =>
        let post := findDoc Post._id (posts s) (Comment.post comment) in
        let isCommentAuthor :=
          bool_decide (Comment.author comment = user req) in
        let replies := hasParent (Comment._id comment) in
        match post with
        | None =>
            if isCommentAuthor
            then Return (set_comments (deleteMany replies (comments s)) s,
                         Next)
            else Throw TypeError
        | Some post =>
            if negb isCommentAuthor
               && negb (bool_decide (Post.author post = user req))
            then Return
                   (s, Failure 401 "Not authorized to delete this comment")
            else
              let s := set_comments (deleteMany replies (comments s)) s in
              let post :=
                Post.set_commentCount (Post.commentCount post - 1) post in
              let repliesCount := countDocuments replies (comments s) in
              let post :=
                Post.set_commentCount (Post.commentCount post - repliesCount)
                  post in
              let s := set_posts (Post.save post (posts s)) s in
              let s :=
                set_comments (removeDoc Comment._id comment (comments s)) s in
              Return (s, Success 200 Empty)
        end
    end).

(** [PUT /api/posts/:id]. *)
Definition updatePost (s : Store) (req : Request) : Store * Response :=
  catch s (
    await post := findById Post._id (posts s) (params_id req) in
    match post with
    | None => Return (s, Failure 404 "Post not found")
    | Some post =>
        if negb (bool_decide (Post.author post = user req))
        then Return (s, Failure 401 "Not authorized to update this post")
        else
          await r := Post.findByIdAndUpdate post (body req) (posts s) in
          Return (set_posts r.1 s, Success 200 (APost r.2))
    end).

(** [DELETE /api/posts/:id]. *)
Definition deletePost (s : Store) (req : Request) : Store * Response :=
  catch s (
    await post := findById Post._id (posts s) (params_id req) in
    match post with
    | None => Return (s, Failure 404 "Post not found")
    | Some post =>
        match findDoc Community._id (communities s) (Post.community post) with
        | None => Throw TypeError
        | Some community =>
            let isModerator :=
              includes (Community.moderators community) (user req) in
            if negb (bool_decide (Post.author post = user req))
               && negb isModerator
            then Return (s, Failure 401 "Not authorized to delete this post")
            else
              let s :=
                set_comments
                  (deleteMany (ofPost (Post._id post)) (comments s)) s in
              let s := set_posts (removeDoc Post._id post (posts s)) s in
              Return (s, Success 200 Empty)
        end
    end).

(** ** Handlers of [controllers/communities.js] *)

(** [POST /api/communities]; [newId] is the identifier generated for the
    new community. *)
Definition createCommunity (newId : ObjectId) (s : Store) (req : Request)
  : Store * Response :=
  if invalid req then (s, Errors)
  else catch s (
    await existingCommunity :=
      Community.findOneByBody (body req !! "name") (communities s) in
    match existingCommunity with
    | Some _ =>
        Return (s, Failure 400 "Community with that name already exists")
    | None =>
        await community := Community.create newId (body req) (user req)
                       [user req] [user req] (communities s) in
        Return (set_communities (insertDoc community (communities s)) s,
                Success 201 (ACommunity community))
    end).

(** [if (req.body.name) { delete req.body.name; }]. *)
Definition stripName (b : Body) : Body :=
  if truthy (b !! "name") then delete "name" b else b.

(** [PUT /api/communities/:name]. *)
Definition updateCommunity (s : Store) (req : Request) : Store * Response :=
  match Community.findOne (params_name req) (communities s) with
  | None => (s, Failure 404 "Community not found")
  | Some community =>
      if negb (includes (Community.moderators community) (user req))
      then (s, Failure 401 "Not authorized to update this community")
      else catch s (
        await r := Community.findByIdAndUpdate community (stripName (body req))
               (communities s) in
        Return (set_communities r.1 s, Success 200 (ACommunity r.2)))
  end.

(** [POST /api/communities/:name/join]. *)
Definition joinCommunity (s : Store) (req : Request) : Store * Response :=
  match Community.findOne (params_name req) (communities s) with
  | None => (s, Failure 404 "Community not found")
  | Some community =>
      if includes (Community.members community) (user req)
      then (s, Failure 400 "User is already a member of this community")
      else
        let community :=
          Community.set_members
            (push (Community.members community) (user req)) community in
        let s := set_communities (Community.save community (communities s)) s in
        (s, Success 200 (Members (len (Community.members community))))
  end.

(** [POST /api/communities/:name/leave]. *)
Definition leaveCommunity (s : Store) (req : Request) : Store * Response :=
  match Community.findOne (params_name req) (communities s) with
  | None => (s, Failure 404 "Community not found")
  | Some community =>
      if negb (includes (Community.members community) (user req))
      then (s, Failure 400 "User is not a member of this community")
      else if bool_decide (Community.creator community = user req)
      then (s, Failure 400 "Creator cannot leave the community")
      else
        let community :=
          Community.set_members
            (without (user req) (Community.members community)) community in
        let community :=
          if includes (Community.moderators community) (user req)
          then Community.set_moderators
                 (without (user req) (Community.moderators community))
                 community
          else community in
        let s := set_communities (Community.save community (communities s)) s in
        (s, Success 200 (Members (len (Community.members community))))
  end.

(** ** Sample data *)

Module Sample.

Definition alice : ObjectId := 1%N.
Definition bob : ObjectId := 2%N.
Definition carol : ObjectId := 3%N.

(** Community "foo", created by alice. *)
Definition foo : Community.t :=
  Community.mk 16%N "foo" "about foo" alice [alice] [alice] 1.

(** A post of alice in "foo", with the three comments below. *)
Definition post : Post.t :=
  Post.mk 32%N "hello" None None None alice 16%N [] [] 0 3.
Definition postId : string := "000000000000000000000020".

(** The chain [c1 <- c2 <- c3]. *)
Definition c1 : Comment.t := Comment.mk 49%N "first" bob 32%N None [] [] 0.
Definition c2 : Comment.t :=
  Comment.mk 50%N "second" carol 32%N (Some 49%N) [] [] 0.
Definition c3 : Comment.t :=
  Comment.mk 51%N "third" bob 32%N (Some 50%N) [] [] 0.
Definition c1Id : string := "000000000000000000000031".

Definition store : Store := mkStore [foo] [post] [c1; c2; c3].

(** A request that passed the validators of its route. *)
Definition request (id name : string) (user : ObjectId) (body : Body)
  : Request :=
  mkRequest id name user body false.

End Sample.

(** ** The vocabulary of the properties, and the requests of the examples *)

(** Whether the actor may delete the comment: its author, or the author of
    the post it belongs to. *)
Definition mayDeleteComment (actor : ObjectId) (c : Comment.t) (p : Post.t)
  : Prop :=
  Comment.author c = actor ∨ Post.author p = actor.

(** Whether the actor may delete the post: its author, or a moderator of
    its community. *)
Definition mayDeletePost (actor : ObjectId) (p : Post.t) (c : Community.t)
  : Prop :=
  Post.author p = actor ∨ actor ∈ Community.moderators c.

(** A reply to a comment that is not stored: carol answers comment
    [0xff] under the sample post. *)
Definition danglingReply : Request :=
  Sample.request Sample.postId "" Sample.carol
    {[ "content" := JStr "reply";
       "parent" := JStr "0000000000000000000000ff" ]}.

(** The document a vote request writes, for posts and for comments. *)
Definition votedPost (value : Z) (uid : ObjectId) (p : Post.t) : Post.t :=
  let v := castVote value uid (Post.upvotes p) (Post.downvotes p) in
  Post.set_voteScore (len v.1 - len v.2)
    (Post.set_downvotes v.2 (Post.set_upvotes v.1 p)).

Definition votedComment (value : Z) (uid : ObjectId) (c : Comment.t)
  : Comment.t :=
  let v := castVote value uid (Comment.upvotes c) (Comment.downvotes c) in
  Comment.set_voteScore (len v.1 - len v.2)
    (Comment.set_downvotes v.2 (Comment.set_upvotes v.1 c)).

(** An upvote on the sample post. *)
Definition upvote (actor : ObjectId) : Request :=
  Sample.request Sample.postId "" actor {[ "value" := JNum 1 ]}.

(** The sample store once bob has upvoted the post, and once bob has
    downvoted it. *)
Definition upvotedStore : Store :=
  mkStore [Sample.foo]
    [Post.set_voteScore 1 (Post.set_upvotes [Sample.bob] Sample.post)]
    [Sample.c1; Sample.c2; Sample.c3].

Definition downvotedStore : Store :=
  mkStore [Sample.foo]
    [Post.set_voteScore (-1) (Post.set_downvotes [Sample.bob] Sample.post)]
    [Sample.c1; Sample.c2; Sample.c3].

(** A downvote on the first sample comment. *)
Definition downvoteComment (actor : ObjectId) : Request :=
  Sample.request Sample.c1Id "" actor {[ "value" := JNum (-1) ]}.

(** The vote arrays hold no user twice and the stored score is their
    difference in length. *)
Definition votesOk (ups downs : list ObjectId) (score : Z) : Prop :=
  NoDup ups ∧ NoDup downs ∧ score = len ups - len downs.

Definition postOk (p : Post.t) : Prop :=
  votesOk (Post.upvotes p) (Post.downvotes p) (Post.voteScore p).

Definition commentOk (c : Comment.t) : Prop :=
  votesOk (Comment.upvotes c) (Comment.downvotes c) (Comment.voteScore c).

(** The stored target with identifier [id] is in order, for posts and
    for comments. *)
Definition postOkAt (id : ObjectId) (s : Store) : Prop :=
  ∀ p, In p (posts s) → Post._id p = id → postOk p.

Definition commentOkAt (id : ObjectId) (s : Store) : Prop :=
  ∀ c, In c (comments s) → Comment._id c = id → commentOk c.

(** The number of users in a vote array. *)
Definition users (arr : list ObjectId) : Z :=
  Z.of_nat (size (list_to_set arr : gset ObjectId)).

(** A vote request on a post or on a comment. *)
Inductive VoteRequest :=
| OnPost (req : Request)
| OnComment (req : Request).

Definition vote (s : Store) (v : VoteRequest) : Store :=
  match v with
  | OnPost req => (votePost s req).1
  | OnComment req => (voteComment s req).1
  end.

Definition votes (s : Store) (vs : list VoteRequest) : Store :=
  fold_left vote vs s.

(** The members array holds no user twice and the stored count is its
    length. *)
Definition communityOk (c : Community.t) : Prop :=
  NoDup (Community.members c)
  ∧ Community.memberCount c = len (Community.members c).

(** The community a successful join writes, and the one a successful
    leave writes. *)
Definition withMember (uid : ObjectId) (c : Community.t) : Community.t :=
  Community.preSave
    (Community.set_members (push (Community.members c) uid) c).

Definition withoutMember (uid : ObjectId) (c : Community.t) : Community.t :=
  let c := Community.set_members (without uid (Community.members c)) c in
  Community.preSave
    (if includes (Community.moderators c) uid
     then Community.set_moderators (without uid (Community.moderators c)) c
     else c).

(** A request of the membership life cycle of communities. *)
Inductive MemberRequest :=
| Create (newId : ObjectId) (req : Request)
| Join (req : Request)
| Leave (req : Request).

Definition membership (s : Store) (m : MemberRequest) : Store :=
  match m with
  | Create newId req => (createCommunity newId s req).1
  | Join req => (joinCommunity s req).1
  | Leave req => (leaveCommunity s req).1
  end.

Definition memberships (s : Store) (ms : list MemberRequest) : Store :=
  fold_left membership ms s.

(** Alice creates "bar", bob joins, carol joins, bob leaves. *)
Definition barRequests : list MemberRequest :=
  [Create 17%N
     (Sample.request "" "" Sample.alice
        {[ "name" := JStr "bar"; "description" := JStr "about bar" ]});
   Join (Sample.request "" "bar" Sample.bob ∅);
   Join (Sample.request "" "bar" Sample.carol ∅);
   Leave (Sample.request "" "bar" Sample.bob ∅)].

(** A sequence of leave requests. *)
Definition leaves (s : Store) (reqs : list Request) : Store :=
  fold_left (λ s req, (leaveCommunity s req).1) reqs s.

(** The store still holds the community [c], with its creator among the
    members. *)
Definition keepsCreator (c : Community.t) (s : Store) : Prop :=
  ∃ c', In c' (communities s)
        ∧ Community._id c' = Community._id c
        ∧ Community.creator c' = Community.creator c
        ∧ Community.creator c ∈ Community.members c'.

(** Alice hands the sample post over to bob and moves it to community
    [0x11]. *)
Definition reassign : Request :=
  Sample.request Sample.postId "" Sample.alice
    {[ "author" := JStr "000000000000000000000002";
       "community" := JStr "000000000000000000000011" ]}.

(** A moderator sends the boolean [false] as the new name of "foo". *)
Definition renameToFalse : Request :=
  Sample.request "" "foo" Sample.alice {[ "name" := JBool false ]}.

(** ** The vocabulary of the further properties *)

(** The request was refused: the handler itself answered with
    [success: false], that is with 400, 401 or 404, as opposed to an
    error handed to the error middleware. *)
Definition refused (r : Response) : Prop :=
  match r with
  | Failure _ _ | Errors => True
  | Success _ _ | Next => False
  end.

(** A handler that has written nothing when it refuses. *)
Definition writesNothingWhenRefused
    (h : Store → Request → Store * Response) : Prop :=
  ∀ s req, refused (h s req).2 → (h s req).1 = s.

(** The rule of a vote of [uid] with [value]: the actor ends in the array
    of the value exactly when the actor was not in it, never in the other
    array, and the other users stay where they were. *)
Definition voteRule (uid : ObjectId) (value : Z)
    (ups downs ups' downs' : list ObjectId) : Prop :=
  (uid ∈ ups' ↔ value = 1 ∧ uid ∉ ups)
  ∧ (uid ∈ downs' ↔ value = -1 ∧ uid ∉ downs)
  ∧ ∀ x, x ≠ uid → (x ∈ ups' ↔ x ∈ ups) ∧ (x ∈ downs' ↔ x ∈ downs).

(** How a vote moves the score: a first vote by its value, a vote given
    again back by its value, a vote against the recorded one by twice its
    value. *)
Definition scoreStep (uid : ObjectId) (value : Z)
    (ups downs : list ObjectId) (old new : Z) : Prop :=
  let mine := if value =? 1 then ups else downs in
  let theirs := if value =? 1 then downs else ups in
  (uid ∉ mine → uid ∉ theirs → new = old + value)
  ∧ (uid ∈ mine → uid ∉ theirs → new = old - value)
  ∧ (uid ∉ mine → uid ∈ theirs → new = old + 2 * value).

(** Identifiers and names are keys of the communities. *)
Definition wellKeyed (coll : list Community.t) : Prop :=
  NoDup (Community._id <$> coll) ∧ NoDup (Community.name <$> coll).

(** A writing request on communities. *)
Inductive CommunityRequest :=
| DoCreate (newId : ObjectId) (req : Request)
| DoUpdate (req : Request)
| DoJoin (req : Request)
| DoLeave (req : Request).

Definition communityStep (s : Store) (r : CommunityRequest) : Store :=
  match r with
  | DoCreate newId req => (createCommunity newId s req).1
  | DoUpdate req => (updateCommunity s req).1
  | DoJoin req => (joinCommunity s req).1
  | DoLeave req => (leaveCommunity s req).1
  end.

Definition communitySteps (s : Store) (rs : list CommunityRequest) : Store :=
  fold_left communityStep rs s.

(** Bob creates a post in "foo" whose body already lists bob twice among
    the upvotes. *)
Definition doubleUpvote : Request :=
  Sample.request "" "" Sample.bob
    {[ "title" := JStr "hi"; "community" := JStr "foo";
       "upvotes" := JArr [JStr "000000000000000000000002";
                          JStr "000000000000000000000002"] ]}.

(** Carol upvotes the post [0x4d]. *)
Definition upvoteNew : Request :=
  Sample.request "00000000000000000000004d" "" Sample.carol
    {[ "value" := JNum 1 ]}.

(** The sample store with a score of 9 recorded for the post, which has
    no votes. *)
Definition staleStore : Store :=
  mkStore [Sample.foo] [Post.set_voteScore 9 Sample.post]
    [Sample.c1; Sample.c2; Sample.c3].


(** Bob creates "bar" and claims a thousand members. *)
Definition inflatedBar : Request :=
  Sample.request "" "" Sample.bob
    {[ "name" := JStr "bar"; "description" := JStr "about bar";
       "memberCount" := JNum 1000 ]}.

(** ** Further handlers: updating a comment, creating a post *)

Definition setContent (v : string) (c : Comment.t) : Comment.t :=
  Comment.mk (Comment._id c) v (Comment.author c) (Comment.post c)
    (Comment.parent c) (Comment.upvotes c) (Comment.downvotes c)
    (Comment.voteScore c).

(** [Comment.findByIdAndUpdate(req.params.id,
    { content: req.body.content }, { new: true, runValidators: true })]
    for a stored comment.  A content that is [undefined] is dropped from
    the update; one that is given is cast, trimmed and must not be empty.
    No save hook runs. *)
Definition updateContent (c : Comment.t) (content : option json)
    (coll : list Comment.t) : result (list Comment.t * Comment.t) :=
  await v := castPath (λ j, Comment.castContent (Some j)) content in
  let c' := setPath setContent v c in
  Return (writeDoc Comment._id c' coll, c').

(** [PUT /api/comments/:id].  The response carries the comment without
    the populated author. *)
Definition updateComment (s : Store) (req : Request) : Store * Response :=
  if invalid req then (s, Errors)
  else catch s (
    await comment := findById Comment._id (comments s) (params_id req) in
    match comment with
    | None => Return (s, Failure 404 "Comment not found")
    | Some comment =>
        if negb (bool_decide (Comment.author comment = user req))
        then Return (s, Failure 401 "Not authorized to update this comment")
        else
          await r := updateContent comment (body req !! "content")
                       (comments s) in
          Return (set_comments r.1 s, Success 200 (AComment r.2))
    end).

(** [Post.create(req.body)] once the handler has written the author and
    the community into the body: these two are given as ids.  The other
    paths come from the body, an [_id] included; a [voteScore] of the body
    is cast and then overwritten by the save hook.  [createdAt] is not
    modelled. *)
Definition createPostDocument (newId : ObjectId) (body : Body)
    (author community : ObjectId) (coll : list Post.t) : result Post.t :=
  await id := castPath castRef (body !! "_id") in
  await title := Community.requiredPath Post.castTitle (body !! "title") in
  await content := castPath Post.castContent (body !! "content") in
  await image := castPath castString (body !! "image") in
  await url := castPath castString (body !! "url") in
  await upvotes := castPath castObjectIdArray (body !! "upvotes") in
  await downvotes := castPath castObjectIdArray (body !! "downvotes") in
  await _ := castPath castCount (body !! "voteScore") in
  await commentCount := castPath castCount (body !! "commentCount") in
  let id := default newId id in
  await _ := uniqueId Post._id id coll in
  Return (Post.preSave
            (Post.mk id title (default None content) (default None image)
               (default None url) author community (default [] upvotes)
               (default [] downvotes) 0 (default 0 commentCount))).

(** [POST /api/posts]; [newId] is the identifier generated for the new
    post.  The response carries the post without the populated author and
    community. *)
Definition createPost (newId : ObjectId) (s : Store) (req : Request)
  : Store * Response :=
  if invalid req then (s, Errors)
  else catch s (
    await community :=
      Community.findOneByBody (body req !! "community") (communities s) in
    match community with
    | None => Return (s, Failure 404 "Community not found")
    | Some community =>
        await post := createPostDocument newId (body req) (user req)
                        (Community._id community) (posts s) in
        Return (set_posts (insertDoc post (posts s)) s,
                Success 201 (APost post))
    end).

(** ** Reading handlers *)

(** The answer of a handler that only reads: [res.status(n).json(...)]
    with its data, a refusal with its error, or [next(err)]. *)
Inductive Answer (A : Type) :=
| Sent (status : nat) (data : A)
| Refused (status : nat) (error : string)
| Failed.
Arguments Sent {A} status data.
Arguments Refused {A} status error.
Arguments Failed {A}.

(** [GET /api/comments/:id], without the populated author and post. *)
Definition getComment (s : Store) (req : Request) : Answer Comment.t :=
  match findById Comment._id (comments s) (params_id req) with
  | Throw _ => Failed
  | Return None => Refused 404 "Comment not found"
  | Return (Some comment) => Sent 200 comment
  end.

(** The order of [.sort('-voteScore')]: the higher score first. *)
Definition byScore (a b : Comment.t) : Prop :=
  Comment.voteScore b ≤ Comment.voteScore a.

Global Instance byScore_dec : RelDecision byScore.
Proof. intros a b. unfold byScore. apply _. Defined.

(** [.sort('-voteScore')].  The store promises no order among comments of
    equal score; the sort used here is one such order. *)
Definition sortByScore (l : list Comment.t) : list Comment.t :=
  merge_sort byScore l.

(** [GET /api/comments/:id/replies]: the count and the replies. *)
Definition getCommentReplies (s : Store) (req : Request)
  : Answer (Z * list Comment.t) :=
  match findById Comment._id (comments s) (params_id req) with
  | Throw _ => Failed
  | Return None => Refused 404 "Comment not found"
  | Return (Some comment) =>
      let replies :=
        sortByScore (findMany (hasParent (Comment._id comment)) (comments s))
      in
      Sent 200 (len replies, replies)
  end.

(** A comment with its [replies] field. *)
#[warnings="-register-all"] Inductive Thread :=
| Node (comment : Comment.t) (replies : list Thread).

Definition root (t : Thread) : Comment.t :=
  match t with Node c _ => c end.

Definition repliesOf (t : Thread) : list Thread :=
  match t with Node _ rs => rs end.

(** [getCommentWithReplies], the recursive function of [getPostComments].
    The recursion of the source has no bound; [fuel] bounds its depth
    here, and [None] means that the bound was reached. *)
Fixpoint getCommentWithReplies (fuel : nat) (coll : list Comment.t)
    (comment : Comment.t) : option (list Thread) :=
  match fuel with
  | O => None
  | S fuel =>
      let replies :=
        sortByScore (findMany (hasParent (Comment._id comment)) coll) in
      mapM (λ reply, Node reply <$> getCommentWithReplies fuel coll reply)
           replies
  end.

(** The query [{ post: id, parent: null }]. *)
Definition topLevelOf (id : ObjectId) (c : Comment.t) : bool :=
  ofPost id c && bool_decide (Comment.parent c = None).

(** [GET /api/posts/:id/comments]: the count and the thread of the post. *)
Definition getPostComments (fuel : nat) (s : Store) (req : Request)
  : option (Answer (Z * list Thread)) :=
  match findById Post._id (posts s) (params_id req) with
  | Throw _ => Some Failed
  | Return None => Some (Refused 404 "Post not found")
  | Return (Some post) =>
      let topLevel :=
        sortByScore (findMany (topLevelOf (Post._id post)) (comments s)) in
      match mapM (λ comment,
                    Node comment
                      <$> getCommentWithReplies fuel (comments s) comment)
                 topLevel with
      | Some threads => Some (Sent 200 (len threads, threads))
      | None => None
      end
  end.




(** The ancestors of a comment, nearest first, up to a top-level comment. *)
Fixpoint ancestry (c : Comment.t) (path : list Comment.t) : Prop :=
  match path with
  | [] => Comment.parent c = None
  | p :: path' => Comment.parent c = Some (Comment._id p) ∧ ancestry p path'
  end.

(** The shape of a materialized thread: under every comment of the tree,
    the replies are the stored comments whose parent it is, each once,
    the higher score first, and each reply is materialized in turn. *)
Fixpoint threaded (coll : list Comment.t) (t : Thread) : Prop :=
  match t with
  | Node c rs =>
      StronglySorted byScore (root <$> rs)
      ∧ root <$> rs ≡ₚ findMany (hasParent (Comment._id c)) coll
      ∧ (fix all (ts : list Thread) : Prop :=
           match ts with
           | [] => True
           | t :: ts => threaded coll t ∧ all ts
           end) rs
  end.

(** The nodes of a thread, the node itself first. *)
Fixpoint nodes (t : Thread) : list Thread :=
  match t with
  | Node c rs =>
      t :: (fix go (ts : list Thread) : list Thread :=
              match ts with
              | [] => []
              | t' :: ts' => nodes t' ++ go ts'
              end) rs
  end.

(** The nodes of a list of threads. *)
Definition allNodes (ts : list Thread) : list Thread :=
  ts ≫= nodes.

(** The replies of the node were computed by [getCommentWithReplies]. *)
Definition grown (coll : list Comment.t) (t : Thread) : Prop :=
  ∃ fuel, getCommentWithReplies fuel coll (root t) = Some (repliesOf t).

(** The chain of parents of [c] leads, through stored comments, to a
    top-level comment of the post [pid]. *)
Definition reaches (pid : ObjectId) (coll : list Comment.t)
    (c : Comment.t) : Prop :=
  ∃ path,
    ancestry c path
    ∧ (∀ x, x ∈ c :: path → In x coll)
    ∧ Comment.post (List.last path c) = pid.

(** ** Query parameters and pages *)




Module Paging.

(** [{ page, limit }]. *)
Record Descriptor := mkDescriptor { page : Z; limit : Z }.

(** [{ count, pagination: { next, prev }, data }]. *)
Record t (A : Type) := mk {
  count : Z;
  next : option Descriptor;
  prev : option Descriptor;
  data : list A
}.
Arguments mk {A} count next prev data.
Arguments count {A} t.
Arguments next {A} t.
Arguments prev {A} t.
Arguments data {A} t.

End Paging.


Module Summary.

(** What [.select('name description memberCount')] keeps of a community. *)
Record t := mk {
  _id : ObjectId;
  name : string;
  description : string;
  memberCount : Z
}.


End Summary.

(** The order of [.sort('-memberCount')]. *)
Definition byMembers (a b : Community.t) : Prop :=
  Community.memberCount b ≤ Community.memberCount a.

Global Instance byMembers_dec : RelDecision byMembers.
Proof. intros a b. unfold byMembers. apply _. Defined.


(** * Properties *)

(** ** Collections *)

Section CollectionFacts.
Context {D : Type} (id_of : D → ObjectId).

Lemma findDoc_Some (coll : list D) id d :
  findDoc id_of coll id = Some d → In d coll ∧ id_of d = id.
Proof.
  unfold findDoc. intros H. apply find_some in H as [Hin Hid].
  split; [done|]. by apply bool_decide_eq_true in Hid.
Qed.

Lemma findDoc_None (coll : list D) id :
  findDoc id_of coll id = None ↔ ∀ d, In d coll → id_of d ≠ id.
Proof.
  unfold findDoc. split.
  - intros H d Hin Hid. eapply find_none in H; [|done].
    by apply bool_decide_eq_false in H.
  - intros H. induction coll as [|x coll IH]; [done|]. simpl.
    rewrite bool_decide_eq_false_2; [|apply H; by left].
    apply IH. intros d Hd. apply H. by right.
Qed.

Lemma findById_Some (coll : list D) rid d :
  findById id_of coll rid = Return (Some d) →
  parseObjectId rid = Some (id_of d) ∧ In d coll.
Proof.
  unfold findById. destruct (parseObjectId rid) as [id|]; [|done].
  intros [= H]. apply findDoc_Some in H as [? <-]. done.
Qed.

Lemma findById_findDoc (coll : list D) rid d :
  findById id_of coll rid = Return (Some d) →
  findDoc id_of coll (id_of d) = Some d.
Proof.
  intros H. pose proof (findById_Some _ _ _ H) as [Hp _].
  unfold findById in H. rewrite Hp in H. congruence.
Qed.

(** Writing a document back keeps the collection's identifiers and makes
    the written document the one found under its identifier. *)
Lemma findDoc_writeDoc_eq (coll : list D) d d0 :
  findDoc id_of coll (id_of d) = Some d0 →
  findDoc id_of (writeDoc id_of d coll) (id_of d) = Some d.
Proof.
  unfold findDoc, writeDoc. induction coll as [|x coll IH]; [done|]. simpl.
  destruct (bool_decide (id_of x = id_of d)) eqn:E.
  - intros _. by rewrite bool_decide_eq_true_2.
  - rewrite E. apply IH.
Qed.

Lemma in_writeDoc (coll : list D) d x :
  In x (writeDoc id_of d coll) →
  x = d ∨ (In x coll ∧ id_of x ≠ id_of d).
Proof.
  unfold writeDoc. rewrite in_map_iff. intros (y & Hy & Hin).
  destruct (bool_decide (id_of y = id_of d)) eqn:E; [by left|].
  right. subst. split; [done|]. by apply bool_decide_eq_false in E.
Qed.

Lemma Forall_writeDoc (P : D → Prop) (coll : list D) d :
  P d → Forall P coll → Forall P (writeDoc id_of d coll).
Proof.
  intros Hd Hall. apply List.Forall_forall. intros x Hx.
  apply in_writeDoc in Hx as [->|[Hx _]]; [done|].
  by eapply List.Forall_forall in Hall.
Qed.

Lemma in_removeDoc (coll : list D) d x :
  In x (removeDoc id_of d coll) ↔ In x coll ∧ id_of x ≠ id_of d.
Proof.
  unfold removeDoc. rewrite filter_In, negb_true_iff, bool_decide_eq_false.
  done.
Qed.

Lemma in_deleteMany (q : D → bool) (coll : list D) x :
  In x (deleteMany q coll) ↔ In x coll ∧ q x = false.
Proof. unfold deleteMany. by rewrite filter_In, negb_true_iff. Qed.

(** Counting a query after deleting by the same query finds nothing. *)
Lemma countDocuments_deleteMany (q : D → bool) (coll : list D) :
  countDocuments q (deleteMany q coll) = 0.
Proof.
  unfold countDocuments, findMany, deleteMany, len.
  induction coll as [|x coll IH]; [done|]. simpl.
  destruct (q x) eqn:E; simpl; [done|]. by rewrite E.
Qed.

End CollectionFacts.

(** ** Deleting comments and posts *)

(** What an authorized [deleteComment] writes: the direct replies and the
    comment are removed, and the counter of the post goes down by one,
    because the replies are counted after they were deleted. *)
Lemma deleteComment_authorized s req c p :
  findById Comment._id (comments s) (params_id req) = Return (Some c) →
  findDoc Post._id (posts s) (Comment.post c) = Some p →
  mayDeleteComment (user req) c p →
  deleteComment s req =
    (mkStore (communities s)
       (Post.save (Post.set_commentCount (Post.commentCount p - 1) p)
          (posts s))
       (removeDoc Comment._id c
          (deleteMany (hasParent (Comment._id c)) (comments s))),
     Success 200 Empty).
Proof.
  intros Hc Hp Hauth. unfold deleteComment. rewrite Hc. simpl. rewrite Hp.
  assert (negb (bool_decide (Comment.author c = user req))
          && negb (bool_decide (Post.author p = user req)) = false) as ->.
  { destruct Hauth as [H|H]; rewrite (bool_decide_eq_true_2 _ H); simpl;
      [done|apply andb_false_r]. }
  simpl. rewrite countDocuments_deleteMany.
  unfold set_comments, set_posts. simpl. do 3 f_equal.
  destruct p; simpl. unfold Post.set_commentCount; simpl. f_equal. lia.
Qed.

Lemma deleteComment_refused s req c p :
  findById Comment._id (comments s) (params_id req) = Return (Some c) →
  findDoc Post._id (posts s) (Comment.post c) = Some p →
  ¬ mayDeleteComment (user req) c p →
  deleteComment s req =
    (s, Failure 401 "Not authorized to delete this comment").
Proof.
  intros Hc Hp Hauth. unfold deleteComment. rewrite Hc. simpl. rewrite Hp.
  unfold mayDeleteComment in Hauth.
  rewrite !bool_decide_eq_false_2 by tauto. done.
Qed.

Lemma deletePost_authorized s req p c :
  findById Post._id (posts s) (params_id req) = Return (Some p) →
  findDoc Community._id (communities s) (Post.community p) = Some c →
  mayDeletePost (user req) p c →
  deletePost s req =
    (mkStore (communities s)
       (removeDoc Post._id p (posts s))
       (deleteMany (ofPost (Post._id p)) (comments s)),
     Success 200 Empty).
Proof.
  intros Hp Hc Hauth. unfold deletePost. rewrite Hp. simpl. rewrite Hc.
  assert (negb (bool_decide (Post.author p = user req))
          && negb (includes (Community.moderators c) (user req)) = false)
    as ->; [|done].
  unfold includes.
  destruct Hauth as [H|H]; rewrite (bool_decide_eq_true_2 _ H); simpl;
    [done|apply andb_false_r].
Qed.

Lemma deletePost_refused s req p c :
  findById Post._id (posts s) (params_id req) = Return (Some p) →
  findDoc Community._id (communities s) (Post.community p) = Some c →
  ¬ mayDeletePost (user req) p c →
  deletePost s req = (s, Failure 401 "Not authorized to delete this post").
Proof.
  intros Hp Hc Hauth. unfold deletePost. rewrite Hp. simpl. rewrite Hc.
  unfold mayDeletePost in Hauth. unfold includes.
  rewrite !bool_decide_eq_false_2 by tauto. done.
Qed.

(** C1, on the code: bob deletes [c1], the root of the chain
    [c1 <- c2 <- c3] under a post that counts 3 comments.  The request
    succeeds, the grandchild [c3] is still stored, and the counter of the
    post is 2: it went down by one, not by three. *)
Theorem deleteComment_chain_keeps_grandchild :
  deleteComment Sample.store
    (Sample.request Sample.c1Id "" Sample.bob ∅)
  = (mkStore [Sample.foo]
       [Post.set_commentCount 2 Sample.post]
       [Sample.c3],
     Success 200 Empty).
Proof. by vm_compute. Qed.

(** What does hold of the authorization, for documents whose references
    are stored: deleting an existing post, whose community is stored,
    succeeds exactly when the actor is the author of the post or one of
    the moderators of the community; deleting an existing comment, whose
    post is stored, succeeds exactly when the actor is the author of the
    comment or the author of the post.  Otherwise the answer is the 401
    refusal and the store is the one the request found. *)
Lemma delete_authorized_when_stored s req :
  (∀ p c,
     findById Post._id (posts s) (params_id req) = Return (Some p) →
     findDoc Community._id (communities s) (Post.community p) = Some c →
     (status (deletePost s req).2 = 200%nat ↔ mayDeletePost (user req) p c)
     ∧ (¬ mayDeletePost (user req) p c →
        deletePost s req =
          (s, Failure 401 "Not authorized to delete this post")))
  ∧ (∀ c p,
     findById Comment._id (comments s) (params_id req) = Return (Some c) →
     findDoc Post._id (posts s) (Comment.post c) = Some p →
     (status (deleteComment s req).2 = 200%nat
      ↔ mayDeleteComment (user req) c p)
     ∧ (¬ mayDeleteComment (user req) c p →
        deleteComment s req =
          (s, Failure 401 "Not authorized to delete this comment"))).
Proof.
  split.
  - intros p c Hp Hc. split; [|by apply deletePost_refused]. split.
    + intros Hs. destruct (decide (mayDeletePost (user req) p c)) as [|Hn];
        [done|]. unfold mayDeletePost in *.
      by rewrite (deletePost_refused _ _ _ _ Hp Hc Hn) in Hs.
    + intros Ha. by rewrite (deletePost_authorized _ _ _ _ Hp Hc Ha).
  - intros c p Hc Hp. split; [|by apply deleteComment_refused]. split.
    + intros Hs. destruct (decide (mayDeleteComment (user req) c p)) as [|Hn];
        [done|].
      by rewrite (deleteComment_refused _ _ _ _ Hc Hp Hn) in Hs.
    + intros Ha. by rewrite (deleteComment_authorized _ _ _ _ Hc Hp Ha).
Qed.

(** An existing post whose community is not stored is deleted by nobody:
    [community.moderators] is read, and throws, before the author of the
    post is looked at. *)
Lemma deletePost_missing_community s req p :
  findById Post._id (posts s) (params_id req) = Return (Some p) →
  findDoc Community._id (communities s) (Post.community p) = None →
  deletePost s req = (s, Next).
Proof. intros Hp Hc. unfold deletePost. by rewrite Hp; simpl; rewrite Hc. Qed.

(** C8, on the code: the author of an existing post cannot delete it once
    its community is not stored.  Alice moves her post to the community
    [0x11], which is not stored, and hands it to bob, by one [updatePost].
    Bob is then the author of the post, yet his request to delete it ends
    in the error middleware, with status 500, and the post is still
    stored. *)
Theorem deletePost_author_missing_community :
  let s := (updatePost Sample.store reassign).1 in
  let p := Post.set_community 17%N (Post.set_author Sample.bob Sample.post) in
  posts s = [p]
  ∧ Post.author p = Sample.bob
  ∧ findDoc Community._id (communities s) (Post.community p) = None
  ∧ deletePost s (Sample.request Sample.postId "" Sample.bob ∅) = (s, Next)
  ∧ status Next = 500%nat.
Proof. by vm_compute. Qed.

(** A successful [deletePost] went through the authorized branch. *)
Lemma deletePost_success s req p s' d :
  findById Post._id (posts s) (params_id req) = Return (Some p) →
  deletePost s req = (s', Success 200 d) →
  s' = mkStore (communities s)
         (removeDoc Post._id p (posts s))
         (deleteMany (ofPost (Post._id p)) (comments s)).
Proof.
  intros Hp Hd.
  destruct (findDoc Community._id (communities s) (Post.community p))
    as [c|] eqn:Hc.
  - destruct (decide (mayDeletePost (user req) p c)) as [Ha|Hn].
    + rewrite (deletePost_authorized _ _ _ _ Hp Hc Ha) in Hd. congruence.
    + rewrite (deletePost_refused _ _ _ _ Hp Hc Hn) in Hd. congruence.
  - unfold deletePost in Hd. rewrite Hp in Hd. simpl in Hd.
    rewrite Hc in Hd. simpl in Hd. congruence.
Qed.

(** C9: after a successful [deletePost] of post [p] no stored comment
    refers to [p] any more, whatever its parent; the comments of other
    posts are all kept; and [p] itself is gone while the other posts are
    kept. *)
Theorem deletePost_cascade s req p s' d :
  findById Post._id (posts s) (params_id req) = Return (Some p) →
  deletePost s req = (s', Success 200 d) →
  (∀ c, In c (comments s') ↔
        In c (comments s) ∧ Comment.post c ≠ Post._id p)
  ∧ findDoc Post._id (posts s') (Post._id p) = None
  ∧ (∀ q, In q (posts s') ↔ In q (posts s) ∧ Post._id q ≠ Post._id p).
Proof.
  intros Hp Hd. rewrite (deletePost_success _ _ _ _ _ Hp Hd). simpl.
  split; [|split].
  - intros c. rewrite in_deleteMany. unfold ofPost.
    by rewrite bool_decide_eq_false.
  - apply findDoc_None. intros q Hq. by apply in_removeDoc in Hq as [_ ?].
  - intros q. apply in_removeDoc.
Qed.

Lemma deletePost_cascade_witness :
  findDoc Post._id
    (posts (deletePost Sample.store
              (Sample.request Sample.postId "" Sample.alice ∅)).1)
    (Post._id Sample.post) = None.
Proof.
  eapply (deletePost_cascade Sample.store
            (Sample.request Sample.postId "" Sample.alice ∅) Sample.post);
    reflexivity.
Defined.

(** ** Adding comments *)



(** The only lookup of [addComment] is that of the post. *)
Lemma addComment_post_not_found newId s req :
  invalid req = false →
  findById Post._id (posts s) (params_id req) = Return None →
  addComment newId s req = (s, Failure 404 "Post not found").
Proof. intros Hv Hp. unfold addComment. by rewrite Hv, Hp. Qed.



(** ** Votes *)

Lemma without_absent uid (l : list ObjectId) : uid ∉ l → without uid l = l.
Proof.
  unfold without. induction l as [|x l IH]; [done|]. intros Hn.
  rewrite filter_cons_True.
  - f_equal. apply IH. intros ?. apply Hn. by right.
  - intros ->. apply Hn. by left.
Qed.

Lemma not_elem_of_without uid (l : list ObjectId) : uid ∉ without uid l.
Proof. unfold without. rewrite list_elem_of_filter. tauto. Qed.

Lemma without_push uid (l : list ObjectId) :
  uid ∉ l → without uid (push l uid) = l.
Proof.
  intros Hn. unfold without, push. rewrite filter_app.
  fold (without uid l). rewrite without_absent by done.
  rewrite filter_cons_False by tauto. rewrite filter_nil. apply app_nil_r.
Qed.

Lemma includes_true (l : list ObjectId) uid : uid ∈ l → includes l uid = true.
Proof. apply bool_decide_eq_true_2. Qed.

Lemma includes_false (l : list ObjectId) uid :
  uid ∉ l → includes l uid = false.
Proof. apply bool_decide_eq_false_2. Qed.

(** A first vote of an actor who had none is recorded at the end of the
    matching array. *)
Lemma castVote_fresh value uid ups downs :
  value = 1 ∨ value = -1 → uid ∉ ups → uid ∉ downs →
  castVote value uid ups downs =
    if value =? 1 then (push ups uid, downs) else (ups, push downs uid).
Proof.
  intros Hv Hu Hd. unfold castVote.
  rewrite (includes_false _ _ Hu), (includes_false _ _ Hd).
  by destruct Hv as [-> | ->].
Qed.

(** Casting the same vote again takes it back. *)
Lemma castVote_twice value uid ups downs :
  value = 1 ∨ value = -1 → uid ∉ ups → uid ∉ downs →
  let v := castVote value uid ups downs in
  castVote value uid v.1 v.2 = (ups, downs).
Proof.
  intros Hv Hu Hd. rewrite castVote_fresh by done.
  destruct Hv as [-> | ->]; simpl; unfold castVote.
  - rewrite includes_true by (unfold push; set_solver).
    rewrite (includes_false _ _ Hd). simpl. by rewrite without_push.
  - rewrite (includes_false _ _ Hu).
    rewrite includes_true by (unfold push; set_solver).
    simpl. by rewrite without_push.
Qed.

(** Once an existing vote is removed the actor is in neither array. *)
Lemma unvoted_spec uid (l : list ObjectId) :
  let l' := if includes l uid then without uid l else l in
  (uid ∉ l') ∧ (NoDup l → NoDup l').
Proof.
  simpl. destruct (includes l uid) eqn:E.
  - split; [apply not_elem_of_without|]. intros Hl. by apply NoDup_filter.
  - split; [|done]. by apply bool_decide_eq_false in E.
Qed.

Lemma NoDup_push uid (l : list ObjectId) :
  NoDup l → uid ∉ l → NoDup (push l uid).
Proof.
  intros Hl Hn. unfold push. apply NoDup_app. split; [done|]. split.
  - by intros x Hx ->%list_elem_of_singleton.
  - apply NoDup_singleton.
Qed.

(** The arrays stay free of duplicates. *)
Lemma castVote_NoDup value uid ups downs :
  NoDup ups → NoDup downs →
  let v := castVote value uid ups downs in NoDup v.1 ∧ NoDup v.2.
Proof.
  intros Hu Hd. unfold castVote.
  destruct (unvoted_spec uid ups) as [Hnu Hu'].
  destruct (unvoted_spec uid downs) as [Hnd Hd'].
  specialize (Hu' Hu). specialize (Hd' Hd).
  destruct ((value =? 1) && negb (includes ups uid)
            || (value =? -1) && negb (includes downs uid));
    [destruct (value =? 1)|]; simpl; auto using NoDup_push.
Qed.

(** What the two vote handlers do on a stored target. *)
Lemma votePost_stored s req value p :
  numberOf (body req !! "value") = Some value →
  value = 1 ∨ value = -1 →
  findById Post._id (posts s) (params_id req) = Return (Some p) →
  votePost s req =
    (let p' := votedPost value (user req) p in
     (set_posts (writeDoc Post._id p' (posts s)) s,
      Success 200 (Votes (Post.voteScore p') (len (Post.upvotes p'))
                     (len (Post.downvotes p'))))).
Proof.
  intros Hn Hv Hp. unfold votePost. rewrite Hn.
  assert (negb (value =? 1) && negb (value =? -1) = false) as ->
    by (by destruct Hv as [-> | ->]).
  rewrite Hp. done.
Qed.

Lemma voteComment_stored s req value c :
  numberOf (body req !! "value") = Some value →
  value = 1 ∨ value = -1 →
  findById Comment._id (comments s) (params_id req) = Return (Some c) →
  voteComment s req =
    (let c' := votedComment value (user req) c in
     (set_comments (writeDoc Comment._id c' (comments s)) s,
      Success 200 (Votes (Comment.voteScore c') (len (Comment.upvotes c'))
                     (len (Comment.downvotes c'))))).
Proof.
  intros Hn Hv Hc. unfold voteComment. rewrite Hn.
  assert (negb (value =? 1) && negb (value =? -1) = false) as ->
    by (by destruct Hv as [-> | ->]).
  rewrite Hc. done.
Qed.

Lemma findById_writeDoc {D} (id_of : D → ObjectId) coll rid d d0 :
  findById id_of coll rid = Return (Some d0) →
  id_of d = id_of d0 →
  findById id_of (writeDoc id_of d coll) rid = Return (Some d).
Proof.
  intros H Hid. pose proof (findById_Some _ _ _ _ H) as [Hp _].
  pose proof (findById_findDoc _ _ _ _ H) as Hf.
  unfold findById. rewrite Hp, <- Hid. f_equal.
  rewrite <- Hid in Hf. by eapply findDoc_writeDoc_eq.
Qed.

Lemma votedPost_twice value uid p :
  value = 1 ∨ value = -1 →
  uid ∉ Post.upvotes p → uid ∉ Post.downvotes p →
  Post.voteScore p = len (Post.upvotes p) - len (Post.downvotes p) →
  votedPost value uid (votedPost value uid p) = p.
Proof.
  intros Hv Hu Hd Hs. destruct p as [i t c im ur a co ups downs sc cc].
  simpl in *. unfold votedPost. simpl.
  pose proof (castVote_twice value uid ups downs Hv Hu Hd) as H.
  simpl in H. rewrite H. simpl. unfold Post.set_voteScore. simpl.
  by rewrite Hs.
Qed.

Lemma votedComment_twice value uid c :
  value = 1 ∨ value = -1 →
  uid ∉ Comment.upvotes c → uid ∉ Comment.downvotes c →
  Comment.voteScore c = len (Comment.upvotes c) - len (Comment.downvotes c) →
  votedComment value uid (votedComment value uid c) = c.
Proof.
  intros Hv Hu Hd Hs. destruct c as [i ct a po pa ups downs sc].
  simpl in *. unfold votedComment. simpl.
  pose proof (castVote_twice value uid ups downs Hv Hu Hd) as H.
  simpl in H. rewrite H. simpl. unfold Comment.set_voteScore. simpl.
  by rewrite Hs.
Qed.

(** C3 does not hold for an actor who already has a vote.  Bob, whose
    upvote is recorded, sends the upvote twice: the first takes the vote
    back, the second records it again, so bob ends with a vote.  Bob,
    whose downvote is recorded, sends the upvote twice: he ends with no
    vote, and the score is 0 where it was -1 before the two requests. *)
Lemma vote_twice_counterexample :
  posts (votePost (votePost upvotedStore (upvote Sample.bob)).1
           (upvote Sample.bob)).1
  = [Post.set_voteScore 1 (Post.set_upvotes [Sample.bob] Sample.post)]
  ∧ posts (votePost (votePost downvotedStore (upvote Sample.bob)).1
             (upvote Sample.bob)).1
    = [Sample.post]
  ∧ Post.voteScore Sample.post = 0.
Proof. by vm_compute. Qed.

(** C3, amended: for a stored target whose score agrees with its vote
    arrays and an actor who has no vote on it, two successive requests
    with the same value 1 or -1 are both answered 200 and leave the target
    as it was: the actor has no vote on it and the score is the one before
    the first request.  This holds for posts and for comments. *)
Theorem vote_twice_retracts s req value :
  numberOf (body req !! "value") = Some value →
  value = 1 ∨ value = -1 →
  (∀ p,
     findById Post._id (posts s) (params_id req) = Return (Some p) →
     user req ∉ Post.upvotes p → user req ∉ Post.downvotes p →
     Post.voteScore p = len (Post.upvotes p) - len (Post.downvotes p) →
     let r1 := votePost s req in
     let r2 := votePost r1.1 req in
     status r1.2 = 200%nat ∧ status r2.2 = 200%nat
     ∧ ∃ p2,
         findById Post._id (posts r2.1) (params_id req) = Return (Some p2)
         ∧ (user req ∉ Post.upvotes p2) ∧ (user req ∉ Post.downvotes p2)
         ∧ Post.voteScore p2 = Post.voteScore p)
  ∧ (∀ c,
     findById Comment._id (comments s) (params_id req) = Return (Some c) →
     user req ∉ Comment.upvotes c → user req ∉ Comment.downvotes c →
     Comment.voteScore c
       = len (Comment.upvotes c) - len (Comment.downvotes c) →
     let r1 := voteComment s req in
     let r2 := voteComment r1.1 req in
     status r1.2 = 200%nat ∧ status r2.2 = 200%nat
     ∧ ∃ c2,
         findById Comment._id (comments r2.1) (params_id req)
           = Return (Some c2)
         ∧ (user req ∉ Comment.upvotes c2)
         ∧ (user req ∉ Comment.downvotes c2)
         ∧ Comment.voteScore c2 = Comment.voteScore c).
Proof.
  intros Hn Hv. split.
  - intros p Hp Hu Hd Hs. simpl.
    rewrite (votePost_stored _ _ _ _ Hn Hv Hp). simpl.
    set (p1 := votedPost value (user req) p).
    assert (findById Post._id (writeDoc Post._id p1 (posts s))
              (params_id req) = Return (Some p1)) as Hp1.
    { eapply findById_writeDoc; [done|]. by destruct p. }
    rewrite (votePost_stored (set_posts (writeDoc Post._id p1 (posts s)) s)
               req value p1 Hn Hv Hp1). simpl.
    subst p1. rewrite votedPost_twice by done.
    split; [done|]. split; [done|]. exists p. split; [|done].
    eapply findById_writeDoc; [done|]. by destruct p.
  - intros c Hc Hu Hd Hs. simpl.
    rewrite (voteComment_stored _ _ _ _ Hn Hv Hc). simpl.
    set (c1 := votedComment value (user req) c).
    assert (findById Comment._id (writeDoc Comment._id c1 (comments s))
              (params_id req) = Return (Some c1)) as Hc1.
    { eapply findById_writeDoc; [done|]. by destruct c. }
    rewrite (voteComment_stored
               (set_comments (writeDoc Comment._id c1 (comments s)) s)
               req value c1 Hn Hv Hc1). simpl.
    subst c1. rewrite votedComment_twice by done.
    split; [done|]. split; [done|]. exists c. split; [|done].
    eapply findById_writeDoc; [done|]. by destruct c.
Qed.

Lemma vote_twice_retracts_witness :
  (∃ p2,
     findById Post._id
       (posts (votePost (votePost Sample.store (upvote Sample.carol)).1
                 (upvote Sample.carol)).1) Sample.postId = Return (Some p2)
     ∧ (Sample.carol ∉ Post.upvotes p2)
     ∧ Post.voteScore p2 = 0)
  ∧ (∃ c2,
     findById Comment._id
       (comments (voteComment
                    (voteComment Sample.store (downvoteComment Sample.alice)).1
                    (downvoteComment Sample.alice)).1) Sample.c1Id
       = Return (Some c2)
     ∧ (Sample.alice ∉ Comment.downvotes c2)
     ∧ Comment.voteScore c2 = 0).
Proof.
  split.
  - destruct (proj1 (vote_twice_retracts Sample.store (upvote Sample.carol) 1
                       eq_refl (or_introl eq_refl))
                Sample.post eq_refl (not_elem_of_nil _) (not_elem_of_nil _)
                eq_refl)
      as (_ & _ & p2 & H1 & H2 & _ & H3).
    exists p2. split; [exact H1|]. split; [exact H2|exact H3].
  - destruct (proj2 (vote_twice_retracts Sample.store
                       (downvoteComment Sample.alice) (-1)
                       eq_refl (or_intror eq_refl))
                Sample.c1 eq_refl (not_elem_of_nil _) (not_elem_of_nil _)
                eq_refl)
      as (_ & _ & c2 & H1 & _ & H2 & H3).
    exists c2. split; [exact H1|]. split; [exact H2|exact H3].
Defined.

(** ** Votes keep duplicate-free arrays free of duplicates *)

Lemma users_NoDup arr : NoDup arr → users arr = len arr.
Proof. intros H. unfold users, len. by rewrite size_list_to_set. Qed.

Lemma votedPost_ok value uid p : postOk p → postOk (votedPost value uid p).
Proof.
  intros (Hu & Hd & _). unfold postOk, votesOk, votedPost.
  destruct (castVote_NoDup value uid _ _ Hu Hd) as [? ?].
  by destruct p.
Qed.

Lemma votedComment_ok value uid c :
  commentOk c → commentOk (votedComment value uid c).
Proof.
  intros (Hu & Hd & _). unfold commentOk, votesOk, votedComment.
  destruct (castVote_NoDup value uid _ _ Hu Hd) as [? ?].
  by destruct c.
Qed.

(** ** Membership *)

Lemma findOne_Some nm coll c :
  Community.findOne nm coll = Some c →
  In c coll ∧ Community.name c = trim nm.
Proof.
  unfold Community.findOne. intros H. apply find_some in H as [Hin Hn].
  split; [done|]. by apply String.eqb_eq.
Qed.

(** After a document found by name is written back under the same name,
    the lookup by name finds what was written. *)
Lemma findOne_writeDoc nm coll c c' :
  Community.findOne nm coll = Some c →
  Community.name c' = Community.name c →
  Community._id c' = Community._id c →
  Community.findOne nm (writeDoc Community._id c' coll) = Some c'.
Proof.
  intros Hf Hn Hid. pose proof (findOne_Some _ _ _ Hf) as [_ Hname].
  rewrite Hname in Hn. clear Hname.
  unfold Community.findOne, writeDoc in *.
  induction coll as [|x coll IH]; [done|]. simpl in *.
  destruct (bool_decide (Community._id x = Community._id c')) eqn:E.
  - rewrite Hn, String.eqb_refl. done.
  - destruct (String.eqb (Community.name x) (trim nm)) eqn:En.
    + injection Hf as ->. rewrite Hid in E.
      by rewrite bool_decide_eq_true_2 in E.
    + by apply IH.
Qed.

Lemma joinCommunity_stored s req c :
  Community.findOne (params_name req) (communities s) = Some c →
  user req ∉ Community.members c →
  joinCommunity s req =
    (set_communities
       (writeDoc Community._id (withMember (user req) c) (communities s)) s,
     Success 200 (Members (len (Community.members (withMember (user req) c))))).
Proof.
  intros Hf Hn. unfold joinCommunity. rewrite Hf.
  rewrite (includes_false _ _ Hn). done.
Qed.

Lemma leaveCommunity_stored s req c :
  Community.findOne (params_name req) (communities s) = Some c →
  user req ∈ Community.members c →
  Community.creator c ≠ user req →
  leaveCommunity s req =
    (set_communities
       (writeDoc Community._id (withoutMember (user req) c) (communities s)) s,
     Success 200 (Members (len (Community.members (withoutMember (user req) c))))).
Proof.
  intros Hf Hin Hc. unfold leaveCommunity. rewrite Hf.
  rewrite (includes_true _ _ Hin). simpl.
  rewrite (bool_decide_eq_false_2 _ Hc). unfold withoutMember, Community.save. simpl.
  by destruct (includes (Community.moderators c) (user req)).
Qed.

Lemma withMember_ok uid c :
  communityOk c → uid ∉ Community.members c → communityOk (withMember uid c).
Proof.
  intros [Hnd _] Hn. split; simpl; [|done]. by apply NoDup_push.
Qed.

Lemma withoutMember_ok uid c : communityOk c → communityOk (withoutMember uid c).
Proof.
  intros [Hnd _]. unfold withoutMember. simpl.
  destruct (includes (Community.moderators c) uid); split; simpl;
    try done; by apply NoDup_filter.
Qed.

Lemma joinCommunity_ok s req :
  Forall communityOk (communities s) →
  Forall communityOk (communities (joinCommunity s req).1).
Proof.
  intros Hs.
  destruct (Community.findOne (params_name req) (communities s))
    as [c|] eqn:Hf; [|unfold joinCommunity; by rewrite Hf].
  destruct (decide (user req ∈ Community.members c)) as [Hin|Hn].
  - unfold joinCommunity. by rewrite Hf, (includes_true _ _ Hin).
  - rewrite (joinCommunity_stored _ _ _ Hf Hn). simpl.
    apply Forall_writeDoc; [|done]. apply withMember_ok; [|done].
    apply findOne_Some in Hf as [Hin _].
    by apply (proj1 (List.Forall_forall _ _) Hs).
Qed.

Lemma leaveCommunity_ok s req :
  Forall communityOk (communities s) →
  Forall communityOk (communities (leaveCommunity s req).1).
Proof.
  intros Hs.
  destruct (Community.findOne (params_name req) (communities s))
    as [c|] eqn:Hf; [|unfold leaveCommunity; by rewrite Hf].
  destruct (decide (user req ∈ Community.members c)) as [Hin|Hn];
    [|unfold leaveCommunity; by rewrite Hf, (includes_false _ _ Hn)].
  destruct (decide (Community.creator c = user req)) as [Hc|Hc].
  - unfold leaveCommunity.
    by rewrite Hf, (includes_true _ _ Hin), (bool_decide_eq_true_2 _ Hc).
  - rewrite (leaveCommunity_stored _ _ _ Hf Hin Hc). simpl.
    apply Forall_writeDoc; [|done]. apply withoutMember_ok.
    apply findOne_Some in Hf as [Hc' _].
    by apply (proj1 (List.Forall_forall _ _) Hs).
Qed.

Lemma createCommunity_ok newId s req :
  Forall communityOk (communities s) →
  Forall communityOk (communities (createCommunity newId s req).1).
Proof.
  intros Hs. unfold createCommunity. destruct (invalid req); [done|].
  destruct (Community.findOneByBody _ _) as [[c|]|]; simpl; try done.
  destruct (Community.create _ _ _ _ _ _) as [c|] eqn:E; simpl; [|done].
  unfold insertDoc. apply Forall_app. split; [done|].
  apply Forall_cons. split; [|done].
  unfold Community.create, bind in E.
  repeat match type of E with
         | match ?m with _ => _ end = _ => destruct m; [|discriminate E]
         end.
  injection E as <-. split; simpl; [|done]. apply NoDup_singleton.
Qed.

Lemma memberships_ok ms :
  ∀ s, Forall communityOk (communities s) →
       Forall communityOk (communities (memberships s ms)).
Proof.
  induction ms as [|m ms IH]; intros s Hs; [done|]. simpl. apply IH.
  destruct m; simpl;
    [by apply createCommunity_ok|by apply joinCommunity_ok
    |by apply leaveCommunity_ok].
Qed.

(** What a join or a leave answered with a member count has written. *)
Lemma join_leave_response s req s' n :
  Forall communityOk (communities s) →
  joinCommunity s req = (s', Success 200 (Members n))
  ∨ leaveCommunity s req = (s', Success 200 (Members n)) →
  ∃ c', Community.findOne (params_name req) (communities s') = Some c'
        ∧ communityOk c' ∧ len (Community.members c') = n.
Proof.
  intros Hs H.
  destruct (Community.findOne (params_name req) (communities s))
    as [c|] eqn:Hf;
    [|unfold joinCommunity, leaveCommunity in H; rewrite Hf in H;
      by destruct H].
  pose proof (findOne_Some _ _ _ Hf) as [Hin Hname].
  pose proof (proj1 (List.Forall_forall _ _) Hs c Hin) as Hc.
  destruct (decide (user req ∈ Community.members c)) as [Hm|Hm];
    destruct H as [H|H].
  - unfold joinCommunity in H. rewrite Hf, (includes_true _ _ Hm) in H.
    discriminate H.
  - destruct (decide (Community.creator c = user req)) as [Hcr|Hcr].
    + unfold leaveCommunity in H.
      rewrite Hf, (includes_true _ _ Hm), (bool_decide_eq_true_2 _ Hcr) in H.
      discriminate H.
    + rewrite (leaveCommunity_stored _ _ _ Hf Hm Hcr) in H.
      injection H as <- <-. exists (withoutMember (user req) c).
      split; [|split; [by apply withoutMember_ok|done]].
      apply (findOne_writeDoc _ _ c); [done| |].
      * unfold withoutMember. simpl.
        by destruct (includes (Community.moderators c) (user req)).
      * unfold withoutMember. simpl.
        by destruct (includes (Community.moderators c) (user req)).
  - rewrite (joinCommunity_stored _ _ _ Hf Hm) in H.
    injection H as <- <-. exists (withMember (user req) c).
    split; [|split; [by apply withMember_ok|done]].
    by apply (findOne_writeDoc _ _ c).
  - unfold leaveCommunity in H. rewrite Hf, (includes_false _ _ Hm) in H.
    discriminate H.
Qed.

(** C7: starting with no community, after any finite sequence of create,
    join and leave requests, answered in whatever way, the stored
    [memberCount] of every community is the number of users in its
    members; and when a join or a leave in such a state answers with a
    member count, that count is the stored [memberCount] and the number
    of users in the members of the community as it is stored after the
    request. *)
Theorem memberCount_invariant ps cs ms :
  let s := memberships (mkStore [] ps cs) ms in
  (∀ c, In c (communities s) →
        Community.memberCount c = users (Community.members c))
  ∧ (∀ req s' n,
       joinCommunity s req = (s', Success 200 (Members n))
       ∨ leaveCommunity s req = (s', Success 200 (Members n)) →
       ∃ c', Community.findOne (params_name req) (communities s') = Some c'
             ∧ Community.memberCount c' = n
             ∧ users (Community.members c') = n).
Proof.
  simpl.
  assert (Forall communityOk
            (communities (memberships (mkStore [] ps cs) ms))) as Hs.
  { apply memberships_ok. simpl. constructor. }
  split.
  - intros c Hin. destruct (proj1 (List.Forall_forall _ _) Hs c Hin)
      as [Hnd ->]. by rewrite users_NoDup.
  - intros req s' n H.
    destruct (join_leave_response _ _ _ _ Hs H) as (c' & Hf & [Hnd Hm] & Hl).
    exists c'. split; [done|]. split; [congruence|].
    by rewrite users_NoDup.
Qed.

Lemma memberCount_invariant_witness :
  ∃ c', Community.findOne "bar"
          (communities
             (joinCommunity (memberships (mkStore [] [] []) barRequests)
                (Sample.request "" "bar" Sample.bob ∅)).1) = Some c'
        ∧ Community.memberCount c' = 3
        ∧ users (Community.members c') = 3.
Proof.
  apply (proj2 (memberCount_invariant [] [] barRequests)
           (Sample.request "" "bar" Sample.bob ∅)).
  left. vm_compute. reflexivity.
Defined.

(** ** The creator cannot leave *)

Lemma writeDoc_ids {D} (id_of : D → ObjectId) d coll :
  id_of <$> writeDoc id_of d coll = id_of <$> coll.
Proof.
  unfold writeDoc. induction coll as [|x coll IH]; [done|].
  cbn [List.map]. rewrite !fmap_cons, IH. f_equal.
  destruct (bool_decide (id_of x = id_of d)) eqn:E; [|done].
  by apply bool_decide_eq_true in E.
Qed.

Lemma in_writeDoc_same {D} (id_of : D → ObjectId) d d0 coll :
  In d0 coll → id_of d = id_of d0 → In d (writeDoc id_of d coll).
Proof.
  intros Hin Hid. unfold writeDoc. apply in_map_iff. exists d0.
  split; [|done]. by rewrite bool_decide_eq_true_2.
Qed.

Lemma in_writeDoc_other {D} (id_of : D → ObjectId) d x coll :
  In x coll → id_of x ≠ id_of d → In x (writeDoc id_of d coll).
Proof.
  intros Hin Hid. unfold writeDoc. apply in_map_iff. exists x.
  split; [|done]. by rewrite bool_decide_eq_false_2.
Qed.

(** Under unique identifiers a stored document is determined by its
    identifier. *)
Lemma unique_ids {D} (id_of : D → ObjectId) coll x y :
  NoDup (id_of <$> coll) → In x coll → In y coll →
  id_of x = id_of y → x = y.
Proof.
  induction coll as [|z coll IH]; [done|]. simpl.
  rewrite NoDup_cons. intros [Hz Hnd] [->|Hx] [->|Hy] Hid; auto.
  - destruct Hz. rewrite Hid. apply list_elem_of_fmap. exists y.
    split; [done|]. by apply list_elem_of_In.
  - destruct Hz. rewrite <- Hid. apply list_elem_of_fmap. exists x.
    split; [done|]. by apply list_elem_of_In.
Qed.

Lemma leaveCommunity_creator s req c :
  Community.findOne (params_name req) (communities s) = Some c →
  Community.creator c = user req →
  leaveCommunity s req =
    (s, Failure 400
          (if includes (Community.members c) (user req)
           then "Creator cannot leave the community"
           else "User is not a member of this community")).
Proof.
  intros Hf Hc. unfold leaveCommunity. rewrite Hf.
  destruct (includes (Community.members c) (user req)); [|done]. simpl.
  by rewrite (bool_decide_eq_true_2 _ Hc).
Qed.

Lemma leaveCommunity_keepsCreator s req c :
  NoDup (Community._id <$> communities s) → keepsCreator c s →
  NoDup (Community._id <$> communities (leaveCommunity s req).1)
  ∧ keepsCreator c (leaveCommunity s req).1.
Proof.
  intros Hnd Hk.
  destruct (Community.findOne (params_name req) (communities s))
    as [d|] eqn:Hf; [|unfold leaveCommunity; by rewrite Hf].
  destruct (decide (user req ∈ Community.members d)) as [Hin|Hn];
    [|unfold leaveCommunity; by rewrite Hf, (includes_false _ _ Hn)].
  destruct (decide (Community.creator d = user req)) as [Hc|Hc];
    [by rewrite (leaveCommunity_creator _ _ _ Hf Hc)|].
  rewrite (leaveCommunity_stored _ _ _ Hf Hin Hc). simpl.
  rewrite writeDoc_ids. split; [done|].
  set (d' := withoutMember (user req) d).
  assert (Community._id d' = Community._id d
          ∧ Community.creator d' = Community.creator d
          ∧ Community.members d' = without (user req) (Community.members d))
    as (Hid & Hcr & Hm).
  { unfold d', withoutMember. simpl.
    by destruct (includes (Community.moderators d) (user req)). }
  pose proof (findOne_Some _ _ _ Hf) as [Hd _].
  destruct Hk as (c' & Hc' & Hid' & Hcr' & Hmem).
  destruct (decide (Community._id c' = Community._id d)) as [E|E].
  - assert (c' = d) as -> by by eapply (unique_ids Community._id).
    exists d'. split; [by eapply in_writeDoc_same|].
    split; [congruence|]. split; [congruence|].
    rewrite Hm. unfold without. apply list_elem_of_filter.
    split; [congruence|done].
  - exists c'. split; [|done].
    apply in_writeDoc_other; [done|congruence].
Qed.

Lemma leaves_keepsCreator c reqs :
  ∀ s, NoDup (Community._id <$> communities s) → keepsCreator c s →
       keepsCreator c (leaves s reqs).
Proof.
  induction reqs as [|req reqs IH]; intros s Hnd Hk; [done|]. simpl.
  destruct (leaveCommunity_keepsCreator s req c Hnd Hk). by apply IH.
Qed.

(** C5: when the actor is the creator of the community, who is one of its
    members, [leaveCommunity] answers with the 400 refusal "Creator cannot
    leave the community" and the store, hence members, moderators and
    member count, is the one the request found.  In a store with unique
    identifiers, whatever leave requests follow each other, by whatever
    actors, a community whose creator is a member is still stored with
    the same creator among its members. *)
Theorem creator_cannot_leave s c :
  In c (communities s) →
  Community.creator c ∈ Community.members c →
  (∀ req,
     Community.findOne (params_name req) (communities s) = Some c →
     user req = Community.creator c →
     leaveCommunity s req =
       (s, Failure 400 "Creator cannot leave the community"))
  ∧ (NoDup (Community._id <$> communities s) →
     ∀ reqs, keepsCreator c (leaves s reqs)).
Proof.
  intros Hin Hm. split.
  - intros req Hf Hu. rewrite (leaveCommunity_creator _ _ _ Hf (eq_sym Hu)).
    rewrite Hu. by rewrite (includes_true _ _ Hm).
  - intros Hnd reqs. apply leaves_keepsCreator; [done|]. by exists c.
Qed.

Lemma creator_cannot_leave_witness :
  leaveCommunity Sample.store (Sample.request "" "foo" Sample.alice ∅)
  = (Sample.store, Failure 400 "Creator cannot leave the community")
  ∧ keepsCreator Sample.foo
      (leaves Sample.store
         [Sample.request "" "foo" Sample.alice ∅;
          Sample.request "" "foo" Sample.bob ∅]).
Proof.
  assert (In Sample.foo (communities Sample.store)) as Hin
    by (simpl; auto).
  assert (Community.creator Sample.foo ∈ Community.members Sample.foo) as Hm
    by (simpl; apply list_elem_of_here).
  split.
  - apply (proj1 (creator_cannot_leave Sample.store Sample.foo Hin Hm));
      reflexivity.
  - apply (proj2 (creator_cannot_leave Sample.store Sample.foo Hin Hm)).
    simpl. apply NoDup_singleton.
Defined.

(** ** Updates *)

Lemma setPath_frame {D A B} (proj : D → B) (set : A → D → D) v d :
  (∀ a d, proj (set a d) = proj d) → proj (setPath set v d) = proj d.
Proof. intros H. destruct v; simpl; auto. Qed.

Lemma castPath_absent {A} (cast : json → result A) v a :
  castPath cast v = Return a → v = None → a = None.
Proof. intros H ->. simpl in H. congruence. Qed.

Lemma castPath_present {A} (cast : json → result A) j a :
  castPath cast (Some j) = Return a → ∃ x, a = Some x ∧ cast j = Return x.
Proof.
  simpl. unfold bind. destruct (cast j) as [x|]; [|done].
  intros [= <-]. by exists x.
Qed.

(** The [author] and [community] of the cast update of a post are the
    casts of the fields of the body. *)
Lemma Post_castUpdate_refs body u :
  Post.castUpdate body = Return u →
  castPath castRef (body !! "author") = Return (Post.u_author u)
  ∧ castPath castRef (body !! "community") = Return (Post.u_community u).
Proof.
  unfold Post.castUpdate, bind. intros H.
  repeat match type of H with
         | match ?m with _ => _ end = _ =>
             destruct m eqn:?; [|discriminate H]
         end.
  injection H as <-. done.
Qed.

Lemma Post_applyUpdate_author u p :
  Post.author (Post.applyUpdate u p)
  = default (Post.author p) (Post.u_author u).
Proof.
  unfold Post.applyUpdate. rewrite !setPath_frame by done.
  destruct (Post.u_author u); simpl; [done|].
  by rewrite !setPath_frame by done.
Qed.

Lemma Post_applyUpdate_community u p :
  Post.community (Post.applyUpdate u p)
  = default (Post.community p) (Post.u_community u).
Proof.
  unfold Post.applyUpdate. rewrite !setPath_frame by done.
  destruct (Post.u_community u); simpl; [done|].
  by rewrite !setPath_frame by done.
Qed.

Lemma Post_applyUpdate_id u p :
  Post._id (Post.applyUpdate u p) = Post._id p.
Proof. unfold Post.applyUpdate. by rewrite !setPath_frame by done. Qed.

(** C4 does not hold: the update is answered 200 and the post is stored
    with bob as its author and [0x11] as its community. *)
Lemma updatePost_author_counterexample :
  updatePost Sample.store reassign
  = (let p := Post.set_community 17%N
                (Post.set_author Sample.bob Sample.post) in
     (mkStore [Sample.foo] [p] [Sample.c1; Sample.c2; Sample.c3],
      Success 200 (APost p)))
  ∧ Post.author Sample.post = Sample.alice
  ∧ Post.community Sample.post = 16%N.
Proof. by vm_compute. Qed.

(** C4, amended: for a body that is a plain update document, without
    update operators among its keys, a successful [updatePost] answers
    with the post as it is then stored; its [author] is unchanged when the
    body has no [author] field and is the identifier given there when the
    field is the 24-digit form of an identifier, and likewise for
    [community]. *)
Theorem updatePost_author_community s req p s' d :
  plainUpdate (body req) →
  findById Post._id (posts s) (params_id req) = Return (Some p) →
  updatePost s req = (s', Success 200 d) →
  ∃ p',
    d = APost p'
    ∧ findById Post._id (posts s') (params_id req) = Return (Some p')
    ∧ (body req !! "author" = None → Post.author p' = Post.author p)
    ∧ (∀ h a, body req !! "author" = Some (JStr h) →
              parseObjectId h = Some a → Post.author p' = a)
    ∧ (body req !! "community" = None →
       Post.community p' = Post.community p)
    ∧ (∀ h a, body req !! "community" = Some (JStr h) →
              parseObjectId h = Some a → Post.community p' = a).
Proof.
  intros _ Hp H. unfold updatePost in H. rewrite Hp in H. simpl in H.
  destruct (negb (bool_decide (Post.author p = user req))); [done|].
  unfold Post.findByIdAndUpdate in H.
  destruct (Post.castUpdate (body req)) as [u|] eqn:Hu; [|done].
  simpl in H. injection H as <- <-. exists (Post.applyUpdate u p).
  destruct (Post_castUpdate_refs _ _ Hu) as [Ha Hc].
  split; [done|]. split.
  { simpl. eapply findById_writeDoc; [done|]. apply Post_applyUpdate_id. }
  rewrite Post_applyUpdate_author, Post_applyUpdate_community.
  repeat split.
  - intros E. by rewrite (castPath_absent _ _ _ Ha E).
  - intros h a E Hh. rewrite E in Ha.
    destruct (castPath_present _ _ _ Ha) as (x & -> & Hx).
    unfold castRef in Hx. simpl in Hx. rewrite Hh in Hx. simpl in Hx.
    simpl. congruence.
  - intros E. by rewrite (castPath_absent _ _ _ Hc E).
  - intros h a E Hh. rewrite E in Hc.
    destruct (castPath_present _ _ _ Hc) as (x & -> & Hx).
    unfold castRef in Hx. simpl in Hx. rewrite Hh in Hx. simpl in Hx.
    simpl. congruence.
Qed.

Lemma updatePost_author_community_witness :
  ∃ p',
    findById Post._id (posts (updatePost Sample.store reassign).1)
      Sample.postId = Return (Some p')
    ∧ Post.author p' = Sample.bob.
Proof.
  destruct (updatePost_author_community Sample.store reassign Sample.post
              (updatePost Sample.store reassign).1
              (APost (Post.set_community 17%N
                        (Post.set_author Sample.bob Sample.post))))
    as (p' & _ & H1 & _ & H2 & _).
  - apply (bool_decide_unpack _). vm_compute. exact I.
  - reflexivity.
  - reflexivity.
  - exists p'. split; [exact H1|].
    apply (H2 "000000000000000000000002"%string); reflexivity.
Defined.

(** ** Renaming a community *)

(** C10, on the code: the guard [if (req.body.name)] lets a name that is
    not truthy through.  The boolean [false] stays in the body, the schema
    casts it to the string "false", which passes the validators of [name],
    and the community "foo" is stored under the name "false". *)
Theorem updateCommunity_renames_on_false :
  stripName (body renameToFalse) !! "name" = Some (JBool false)
  ∧ updateCommunity Sample.store renameToFalse
    = (let c := Community.set_name "false" Sample.foo in
       (mkStore [c] [Sample.post] [Sample.c1; Sample.c2; Sample.c3],
        Success 200 (ACommunity c))).
Proof. by vm_compute. Qed.

(** A name that is truthy is removed from the body. *)
Lemma stripName_truthy b :
  truthy (b !! "name") = true → stripName b !! "name" = None.
Proof. intros H. unfold stripName. rewrite H. apply lookup_delete_eq. Qed.

Lemma Community_applyUpdate_name u c :
  Community.name (Community.applyUpdate u c)
  = default (Community.name c) (Community.u_name u).
Proof.
  unfold Community.applyUpdate. rewrite !setPath_frame by done.
  by destruct (Community.u_name u).
Qed.

Lemma Community_castUpdate_name body u :
  Community.castUpdate body = Return u →
  castPath Community.castName (body !! "name")
  = Return (Community.u_name u).
Proof.
  unfold Community.castUpdate, bind. intros H.
  repeat match type of H with
         | match ?m with _ => _ end = _ =>
             destruct m eqn:?; [|discriminate H]
         end.
  injection H as <-. done.
Qed.

(** What does hold of the guard: when the body is a plain update
    document that has no name, or a truthy one (any non-empty string,
    for instance), a successful [updateCommunity] stores the community
    under the name it had. *)
Lemma updateCommunity_keeps_name s req c s' c' :
  plainUpdate (body req) →
  Community.findOne (params_name req) (communities s) = Some c →
  body req !! "name" = None ∨ truthy (body req !! "name") = true →
  updateCommunity s req = (s', Success 200 (ACommunity c')) →
  Community.name c' = Community.name c.
Proof.
  intros _ Hf Hb H. unfold updateCommunity in H. rewrite Hf in H.
  destruct (negb (includes (Community.moderators c) (user req))); [done|].
  unfold Community.findByIdAndUpdate, catch, bind in H.
  destruct (Community.castUpdate (stripName (body req))) as [u|] eqn:Hu;
    [|done].
  assert (stripName (body req) !! "name" = None) as Hn.
  { destruct Hb as [Hb|Hb]; [|by apply stripName_truthy].
    unfold stripName. by rewrite Hb. }
  apply Community_castUpdate_name in Hu. rewrite Hn in Hu.
  simpl in Hu. injection Hu as Hu. rewrite <- Hu in H. simpl in H.
  injection H as <- <-. rewrite Community_applyUpdate_name.
  by rewrite <- Hu.
Qed.

(** * Further properties of the handlers *)

(** ** Comments are counted one by one *)

(** X1: a successful [addComment] appends exactly one comment, written by
    the actor under the post of the request, without votes; the post of
    the request is written back counting one comment more, whatever the
    parent; nothing else is written. *)
Theorem addComment_success newId s req s' d :
  addComment newId s req = (s', Success 201 d) →
  ∃ p c p',
    findById Post._id (posts s) (params_id req) = Return (Some p)
    ∧ d = AComment c
    ∧ comments s' = comments s ++ [c]
    ∧ Comment._id c = newId
    ∧ Comment.author c = user req
    ∧ Comment.post c = Post._id p
    ∧ Comment.upvotes c = [] ∧ Comment.downvotes c = []
    ∧ Comment.voteScore c = 0
    ∧ findById Post._id (posts s') (params_id req) = Return (Some p')
    ∧ Post.commentCount p' = Post.commentCount p + 1
    ∧ Post._id p' = Post._id p
    ∧ posts s' = writeDoc Post._id p' (posts s)
    ∧ communities s' = communities s.
Proof.
  unfold addComment. destruct (invalid req); [done|].
  destruct (findById Post._id (posts s) (params_id req))
    as [[p|]|] eqn:Hp; [|done|done].
  simpl. destruct (Comment.create _ _ _ _ _ _) as [c|] eqn:Hc; [|done].
  simpl. intros [= <- <-].
  unfold Comment.create, bind in Hc.
  destruct (Comment.castContent _) as [content|]; [|done].
  unfold Comment.castPost in Hc.
  destruct (findById_Some _ _ _ _ Hp) as [Hparse _]. rewrite Hparse in Hc.
  destruct (castObjectId _) as [parent|]; [|done].
  destruct (uniqueId _ _ _); [|done]. injection Hc as <-.
  set (p1 := Post.set_commentCount (Post.commentCount p + 1) p).
  exists p, (Comment.mk newId content (user req) (Post._id p) parent [] [] 0),
    (Post.preSave p1).
  repeat split; try done.
  simpl. eapply findById_writeDoc; [done|]. by destruct p.
Qed.

Lemma addComment_success_witness :
  ∃ p', findById Post._id
          (posts (addComment 52%N Sample.store danglingReply).1)
          Sample.postId = Return (Some p')
        ∧ Post.commentCount p' = 4.
Proof.
  destruct (addComment_success 52%N Sample.store danglingReply
              (addComment 52%N Sample.store danglingReply).1
              (AComment
                 (Comment.mk 52%N "reply" Sample.carol 32%N (Some 255%N)
                    [] [] 0)) eq_refl)
    as (p & c & p' & Hp & _ & _ & _ & _ & _ & _ & _ & _ & Hp' & Hn & _ & _).
  exists p'. split; [exact Hp'|].
  rewrite Hn. injection Hp as <-. reflexivity.
Defined.

(** ** Refused requests write nothing *)

Ltac case_scrutinee :=
  match goal with
  | |- context [match ?x with _ => _ end] =>
      lazymatch x with
      | context [match _ with _ => _ end] => fail
      | _ => destruct x eqn:?
      end
  end.

Ltac by_cases_of_handler :=
  unfold writesNothingWhenRefused; intros s req Hrefused;
  repeat case_scrutinee;
  simpl in *; done.

(** X2: a refused request writes nothing.  Whenever one of the twelve
    writing handlers answers with a refusal of its own, that is with 400
    (validation errors or a broken rule), 401 or 404, the whole store is
    as the request found it. *)
Theorem refused_requests_write_nothing :
  writesNothingWhenRefused votePost
  ∧ writesNothingWhenRefused voteComment
  ∧ (∀ newId, writesNothingWhenRefused (addComment newId))
  ∧ writesNothingWhenRefused updateComment
  ∧ writesNothingWhenRefused deleteComment
  ∧ (∀ newId, writesNothingWhenRefused (createPost newId))
  ∧ writesNothingWhenRefused updatePost
  ∧ writesNothingWhenRefused deletePost
  ∧ (∀ newId, writesNothingWhenRefused (createCommunity newId))
  ∧ writesNothingWhenRefused updateCommunity
  ∧ writesNothingWhenRefused joinCommunity
  ∧ writesNothingWhenRefused leaveCommunity.
Proof.
  repeat apply conj.
  - unfold votePost, catch, bind. by_cases_of_handler.
  - unfold voteComment, catch, bind. by_cases_of_handler.
  - intros newId. unfold addComment, catch, bind. by_cases_of_handler.
  - unfold updateComment, updateContent, catch, bind. by_cases_of_handler.
  - unfold deleteComment, catch, bind. by_cases_of_handler.
  - intros newId. unfold createPost, catch, bind. by_cases_of_handler.
  - unfold updatePost, catch, bind. by_cases_of_handler.
  - unfold deletePost, catch, bind. by_cases_of_handler.
  - intros newId. unfold createCommunity, catch, bind. by_cases_of_handler.
  - unfold updateCommunity, catch, bind. by_cases_of_handler.
  - unfold joinCommunity. by_cases_of_handler.
  - unfold leaveCommunity. by_cases_of_handler.
Qed.

Lemma refused_requests_write_nothing_witness :
  (updatePost Sample.store
     (Sample.request Sample.postId "" Sample.bob
        {[ "title" := JStr "mine now" ]})).1 = Sample.store.
Proof.
  apply (proj1 (proj2 (proj2 (proj2 (proj2 (proj2
           (proj2 refused_requests_write_nothing))))))).
  vm_compute. exact I.
Defined.



(** ** Who may update *)

Lemma Community_applyUpdate_id u c :
  Community._id (Community.applyUpdate u c) = Community._id c.
Proof. unfold Community.applyUpdate. by rewrite !setPath_frame by done. Qed.

(** X4: only the author updates a post.  Any other actor is answered 401
    and nothing is written; a successful update was sent by the author,
    rewrites the one post, under the same identifier, and leaves comments
    and communities alone. *)
Theorem updatePost_only_author s req :
  (∀ p, findById Post._id (posts s) (params_id req) = Return (Some p) →
        Post.author p ≠ user req →
        updatePost s req =
          (s, Failure 401 "Not authorized to update this post"))
  ∧ (∀ s' d, updatePost s req = (s', Success 200 d) →
       ∃ p p',
         findById Post._id (posts s) (params_id req) = Return (Some p)
         ∧ Post.author p = user req
         ∧ d = APost p' ∧ Post._id p' = Post._id p
         ∧ posts s' = writeDoc Post._id p' (posts s)
         ∧ comments s' = comments s ∧ communities s' = communities s).
Proof.
  split.
  - intros p Hp Hne. unfold updatePost. rewrite Hp. simpl.
    by rewrite (bool_decide_eq_false_2 _ Hne).
  - intros s' d. unfold updatePost.
    destruct (findById Post._id (posts s) (params_id req))
      as [[p|]|] eqn:Hp; [|done|done].
    simpl. destruct (bool_decide (Post.author p = user req)) eqn:Ha; [|done].
    apply bool_decide_eq_true in Ha. simpl.
    unfold Post.findByIdAndUpdate.
    destruct (Post.castUpdate (body req)) as [u|]; [|done].
    simpl. intros [= <- <-]. exists p, (Post.applyUpdate u p).
    repeat split; try done. apply Post_applyUpdate_id.
Qed.

Lemma updatePost_only_author_witness :
  updatePost Sample.store
    (Sample.request Sample.postId "" Sample.bob {[ "title" := JStr "x" ]})
  = (Sample.store, Failure 401 "Not authorized to update this post").
Proof.
  apply (proj1 (updatePost_only_author Sample.store
                  (Sample.request Sample.postId "" Sample.bob
                     {[ "title" := JStr "x" ]})) Sample.post eq_refl).
  vm_compute. discriminate.
Defined.

(** X5: only a moderator updates a community.  Any other actor is
    answered 401 and nothing is written; a successful update was sent by
    one of the moderators, rewrites the one community, under the same
    identifier, and leaves posts and comments alone. *)
Theorem updateCommunity_only_moderator s req :
  (∀ c, Community.findOne (params_name req) (communities s) = Some c →
        user req ∉ Community.moderators c →
        updateCommunity s req =
          (s, Failure 401 "Not authorized to update this community"))
  ∧ (∀ s' d, updateCommunity s req = (s', Success 200 d) →
       ∃ c c',
         Community.findOne (params_name req) (communities s) = Some c
         ∧ (user req ∈ Community.moderators c)
         ∧ d = ACommunity c' ∧ Community._id c' = Community._id c
         ∧ communities s' = writeDoc Community._id c' (communities s)
         ∧ posts s' = posts s ∧ comments s' = comments s).
Proof.
  split.
  - intros c Hc Hn. unfold updateCommunity.
    by rewrite Hc, (includes_false _ _ Hn).
  - intros s' d. unfold updateCommunity.
    destruct (Community.findOne (params_name req) (communities s))
      as [c|] eqn:Hc; [|done].
    destruct (includes (Community.moderators c) (user req)) eqn:Hm; [|done].
    apply bool_decide_eq_true in Hm. simpl.
    unfold Community.findByIdAndUpdate, catch, bind.
    destruct (Community.castUpdate _) as [u|]; [|done].
    destruct (match Community.u_name u with
              | Some nm => _
              | None => _
              end); [|done].
    simpl. intros [= <- <-]. exists c, (Community.applyUpdate u c).
    repeat split; try done. apply Community_applyUpdate_id.
Qed.

Lemma updateCommunity_only_moderator_witness :
  updateCommunity Sample.store
    (Sample.request "" "foo" Sample.bob {[ "description" := JStr "x" ]})
  = (Sample.store, Failure 401 "Not authorized to update this community").
Proof.
  apply (proj1 (updateCommunity_only_moderator Sample.store
                  (Sample.request "" "foo" Sample.bob
                     {[ "description" := JStr "x" ]})) Sample.foo eq_refl).
  vm_compute. inversion 1 as [|? ? ? H]; inversion H.
Defined.

(** ** The rule of a vote *)

Lemma elem_of_without x uid (l : list ObjectId) :
  x ∈ without uid l ↔ x ≠ uid ∧ x ∈ l.
Proof. unfold without. by rewrite list_elem_of_filter. Qed.

Lemma elem_of_push x uid (l : list ObjectId) :
  x ∈ push l uid ↔ x ∈ l ∨ x = uid.
Proof. unfold push. rewrite elem_of_app, list_elem_of_singleton. done. Qed.

Lemma castVote_rule value uid ups downs :
  value = 1 ∨ value = -1 →
  let v := castVote value uid ups downs in
  voteRule uid value ups downs v.1 v.2.
Proof.
  intros Hv. unfold castVote, voteRule, includes.
  destruct (decide (uid ∈ ups)) as [Hu|Hu];
    destruct (decide (uid ∈ downs)) as [Hd|Hd];
    rewrite ?(bool_decide_eq_true_2 _ Hu), ?(bool_decide_eq_false_2 _ Hu),
      ?(bool_decide_eq_true_2 _ Hd), ?(bool_decide_eq_false_2 _ Hd);
    destruct Hv as [-> | ->]; simpl;
    rewrite ?elem_of_push, ?elem_of_without;
    (split; [|split]);
    try (intros x Hx; rewrite ?elem_of_push, ?elem_of_without);
    intuition (try congruence; try lia).
Qed.

Lemma len_without uid (l : list ObjectId) :
  NoDup l → uid ∈ l → len (without uid l) = len l - 1.
Proof.
  unfold len, without. induction 1 as [|x l Hx Hl IH]; [by inversion 1|].
  intros Hin. destruct (decide (x = uid)) as [->|Hne].
  - rewrite filter_cons_False by tauto.
    fold (without uid l). rewrite without_absent by done. simpl. lia.
  - rewrite filter_cons_True by done. simpl.
    apply elem_of_cons in Hin as [->|Hin]; [done|].
    specialize (IH Hin). lia.
Qed.

Lemma len_push uid (l : list ObjectId) : len (push l uid) = len l + 1.
Proof. unfold len, push. rewrite length_app. simpl. lia. Qed.

Lemma castVote_score value uid ups downs :
  value = 1 ∨ value = -1 → NoDup ups → NoDup downs →
  let v := castVote value uid ups downs in
  scoreStep uid value ups downs (len ups - len downs) (len v.1 - len v.2).
Proof.
  intros Hv Hnu Hnd. unfold castVote, scoreStep, includes.
  destruct (decide (uid ∈ ups)) as [Hu|Hu];
    destruct (decide (uid ∈ downs)) as [Hd|Hd];
    rewrite ?(bool_decide_eq_true_2 _ Hu), ?(bool_decide_eq_false_2 _ Hu),
      ?(bool_decide_eq_true_2 _ Hd), ?(bool_decide_eq_false_2 _ Hd);
    destruct Hv as [-> | ->]; simpl;
    rewrite ?len_push, ?len_without by done;
    repeat split; intros; try done; lia.
Qed.

(** X6: the rule table of a vote.  After a vote with value 1 or -1 on a
    stored post or comment, the actor is in the array of that value exactly
    when the actor was not in it before, and in no case in the other
    array; every other user is in the same arrays as before. *)
Theorem vote_rule s req value :
  numberOf (body req !! "value") = Some value →
  value = 1 ∨ value = -1 →
  (∀ p, findById Post._id (posts s) (params_id req) = Return (Some p) →
     ∃ p',
       findById Post._id (posts (votePost s req).1) (params_id req)
         = Return (Some p')
       ∧ voteRule (user req) value (Post.upvotes p) (Post.downvotes p)
           (Post.upvotes p') (Post.downvotes p'))
  ∧ (∀ c, findById Comment._id (comments s) (params_id req)
           = Return (Some c) →
     ∃ c',
       findById Comment._id (comments (voteComment s req).1) (params_id req)
         = Return (Some c')
       ∧ voteRule (user req) value (Comment.upvotes c) (Comment.downvotes c)
           (Comment.upvotes c') (Comment.downvotes c')).
Proof.
  intros Hn Hv. split.
  - intros p Hp. rewrite (votePost_stored _ _ _ _ Hn Hv Hp). simpl.
    exists (votedPost value (user req) p). split.
    + eapply findById_writeDoc; [done|]. by destruct p.
    + pose proof (castVote_rule value (user req) (Post.upvotes p)
                    (Post.downvotes p) Hv) as H. by destruct p.
  - intros c Hc. rewrite (voteComment_stored _ _ _ _ Hn Hv Hc). simpl.
    exists (votedComment value (user req) c). split.
    + eapply findById_writeDoc; [done|]. by destruct c.
    + pose proof (castVote_rule value (user req) (Comment.upvotes c)
                    (Comment.downvotes c) Hv) as H. by destruct c.
Qed.

Lemma vote_rule_witness :
  ∃ p',
    findById Post._id (posts (votePost downvotedStore (upvote Sample.bob)).1)
      Sample.postId = Return (Some p')
    ∧ (Sample.bob ∈ Post.upvotes p') ∧ (Sample.bob ∉ Post.downvotes p').
Proof.
  destruct (proj1 (vote_rule downvotedStore (upvote Sample.bob) 1 eq_refl
                     (or_introl eq_refl)) _ eq_refl)
    as (p' & Hp' & Hu & Hd & _).
  exists p'. split; [exact Hp'|]. split.
  - apply Hu. split; [reflexivity|]. apply not_elem_of_nil.
  - intros H. apply Hd in H as [H _]. discriminate H.
Defined.

(** X7: how a vote moves the score.  For a stored target whose arrays are
    free of duplicates, the score that a vote with value 1 or -1 returns
    and stores is the difference of the returned array lengths; compared
    with the difference before the vote it moved by the value for a first
    vote, back by the value for a vote given again, and by twice the value
    for a vote against the recorded one. *)
Theorem vote_score_step s req value :
  numberOf (body req !! "value") = Some value →
  value = 1 ∨ value = -1 →
  (∀ p, findById Post._id (posts s) (params_id req) = Return (Some p) →
     NoDup (Post.upvotes p) → NoDup (Post.downvotes p) →
     ∃ p' u d,
       votePost s req
         = (set_posts (writeDoc Post._id p' (posts s)) s,
            Success 200 (Votes (u - d) u d))
       ∧ Post.voteScore p' = u - d
       ∧ scoreStep (user req) value (Post.upvotes p) (Post.downvotes p)
           (len (Post.upvotes p) - len (Post.downvotes p)) (u - d))
  ∧ (∀ c, findById Comment._id (comments s) (params_id req)
           = Return (Some c) →
     NoDup (Comment.upvotes c) → NoDup (Comment.downvotes c) →
     ∃ c' u d,
       voteComment s req
         = (set_comments (writeDoc Comment._id c' (comments s)) s,
            Success 200 (Votes (u - d) u d))
       ∧ Comment.voteScore c' = u - d
       ∧ scoreStep (user req) value
           (Comment.upvotes c) (Comment.downvotes c)
           (len (Comment.upvotes c) - len (Comment.downvotes c)) (u - d)).
Proof.
  intros Hn Hv. split.
  - intros p Hp Hnu Hnd. rewrite (votePost_stored _ _ _ _ Hn Hv Hp).
    eexists _, _, _. split; [reflexivity|]. split; [by destruct p|].
    pose proof (castVote_score value (user req) _ _ Hv Hnu Hnd) as H.
    by destruct p.
  - intros c Hc Hnu Hnd. rewrite (voteComment_stored _ _ _ _ Hn Hv Hc).
    eexists _, _, _. split; [reflexivity|]. split; [by destruct c|].
    pose proof (castVote_score value (user req) _ _ Hv Hnu Hnd) as H.
    by destruct c.
Qed.

Lemma vote_score_step_witness :
  ∃ p' u d,
    votePost downvotedStore (upvote Sample.bob)
      = (set_posts (writeDoc Post._id p' (posts downvotedStore))
           downvotedStore,
         Success 200 (Votes (u - d) u d))
    ∧ u - d = -1 + 2 * 1.
Proof.
  destruct (proj1 (vote_score_step downvotedStore (upvote Sample.bob) 1
                     eq_refl (or_introl eq_refl)) _ eq_refl
              (NoDup_nil_2) (NoDup_singleton _))
    as (p' & u & d & H & _ & _ & _ & H3).
  exists p', u, d. split; [exact H|]. apply H3.
  - apply not_elem_of_nil.
  - apply list_elem_of_here.
Defined.

(** ** Joining and leaving *)

(** X8: for a community found by its name, [joinCommunity] succeeds
    exactly when the actor is not yet a member, and is answered 400
    otherwise.  When it succeeds the actor is appended to the members,
    moderators and creator are as before, and the stored count is the
    former number of members plus one. *)
Theorem joinCommunity_spec s req c :
  Community.findOne (params_name req) (communities s) = Some c →
  (status (joinCommunity s req).2 = 200%nat ↔ user req ∉ Community.members c)
  ∧ (user req ∈ Community.members c →
     joinCommunity s req =
       (s, Failure 400 "User is already a member of this community"))
  ∧ (user req ∉ Community.members c →
     ∃ c',
       Community.findOne (params_name req) (communities (joinCommunity s req).1)
         = Some c'
       ∧ Community.members c' = Community.members c ++ [user req]
       ∧ Community.moderators c' = Community.moderators c
       ∧ Community.creator c' = Community.creator c
       ∧ Community.memberCount c' = len (Community.members c) + 1).
Proof.
  intros Hf.
  assert (user req ∈ Community.members c →
          joinCommunity s req =
            (s, Failure 400 "User is already a member of this community"))
    as Hin.
  { intros Hin. unfold joinCommunity. by rewrite Hf, (includes_true _ _ Hin). }
  split; [|split; [done|]].
  - destruct (decide (user req ∈ Community.members c)) as [Hm|Hm].
    + rewrite (Hin Hm). simpl. split; [done|tauto].
    + by rewrite (joinCommunity_stored _ _ _ Hf Hm).
  - intros Hm. rewrite (joinCommunity_stored _ _ _ Hf Hm). simpl.
    exists (withMember (user req) c).
    pose proof (findOne_Some _ _ _ Hf) as [_ Hname].
    split; [by apply (findOne_writeDoc _ _ c)|].
    repeat split. simpl. apply len_push.
Qed.

Lemma joinCommunity_spec_witness :
  ∃ c',
    Community.findOne "foo"
      (communities
         (joinCommunity Sample.store
            (Sample.request "" "foo" Sample.bob ∅)).1) = Some c'
    ∧ Community.members c' = [Sample.alice; Sample.bob].
Proof.
  destruct (proj2 (proj2 (joinCommunity_spec Sample.store
                            (Sample.request "" "foo" Sample.bob ∅)
                            Sample.foo eq_refl)))
    as (c' & H1 & H2 & _).
  - vm_compute. inversion 1 as [|? ? ? H]; inversion H.
  - exists c'. split; [exact H1|exact H2].
Defined.

(** X9: for a community found by its name, [leaveCommunity] succeeds
    exactly when the actor is a member other than the creator.  When it
    succeeds the actor is neither a member nor a moderator any more,
    every other user is a member and a moderator exactly as before, the
    creator is as before, and the stored count is the number of members
    left. *)
Theorem leaveCommunity_spec s req c :
  Community.findOne (params_name req) (communities s) = Some c →
  (status (leaveCommunity s req).2 = 200%nat
   ↔ user req ∈ Community.members c ∧ Community.creator c ≠ user req)
  ∧ (user req ∈ Community.members c → Community.creator c ≠ user req →
     ∃ c',
       Community.findOne (params_name req)
         (communities (leaveCommunity s req).1) = Some c'
       ∧ (user req ∉ Community.members c')
       ∧ (user req ∉ Community.moderators c')
       ∧ (∀ x, x ≠ user req →
            (x ∈ Community.members c' ↔ x ∈ Community.members c)
            ∧ (x ∈ Community.moderators c' ↔ x ∈ Community.moderators c))
       ∧ Community.creator c' = Community.creator c
       ∧ Community.memberCount c' = len (Community.members c')).
Proof.
  intros Hf. split.
  - destruct (decide (user req ∈ Community.members c)) as [Hm|Hm].
    + destruct (decide (Community.creator c = user req)) as [Hc|Hc].
      * rewrite (leaveCommunity_creator _ _ _ Hf Hc). simpl. split; [done|].
        tauto.
      * by rewrite (leaveCommunity_stored _ _ _ Hf Hm Hc).
    + unfold leaveCommunity. rewrite Hf, (includes_false _ _ Hm). simpl.
      split; [done|tauto].
  - intros Hm Hc. rewrite (leaveCommunity_stored _ _ _ Hf Hm Hc). simpl.
    exists (withoutMember (user req) c).
    pose proof (findOne_Some _ _ _ Hf) as [_ Hname].
    assert (Community.members (withoutMember (user req) c)
            = without (user req) (Community.members c)
            ∧ Community._id (withoutMember (user req) c) = Community._id c
            ∧ Community.name (withoutMember (user req) c) = Community.name c
            ∧ Community.creator (withoutMember (user req) c)
              = Community.creator c
            ∧ Community.memberCount (withoutMember (user req) c)
              = len (without (user req) (Community.members c)))
      as (Hmem & Hid & Hnm & Hcr & Hcount).
    { unfold withoutMember. simpl.
      by destruct (includes (Community.moderators c) (user req)). }
    split; [apply (findOne_writeDoc _ _ c); congruence|].
    rewrite Hmem. split; [apply not_elem_of_without|].
    split; [|split; [|done]].
    + unfold withoutMember. simpl.
      destruct (includes (Community.moderators c) (user req)) eqn:E; simpl.
      * apply not_elem_of_without.
      * by apply bool_decide_eq_false in E.
    + intros x Hx. rewrite elem_of_without. split; [tauto|].
      unfold withoutMember. simpl.
      destruct (includes (Community.moderators c) (user req)); simpl;
        [rewrite elem_of_without; tauto|done].
Qed.

Lemma leaveCommunity_spec_witness :
  status (leaveCommunity Sample.store
            (Sample.request "" "foo" Sample.alice ∅)).2 = 200%nat
  ↔ Sample.alice ∈ Community.members Sample.foo
    ∧ Community.creator Sample.foo ≠ Sample.alice.
Proof.
  apply (proj1 (leaveCommunity_spec Sample.store
                  (Sample.request "" "foo" Sample.alice ∅)
                  Sample.foo eq_refl)).
Defined.

(** X10: joining and then leaving is a round trip.  When an actor who is
    neither a member nor a moderator joins a community found by its name
    and then leaves it, both requests succeed, with the counts n + 1 and
    n, and the community is stored as it was, with its count set to the
    number n of its members. *)
Theorem join_then_leave s req c :
  Community.findOne (params_name req) (communities s) = Some c →
  user req ∉ Community.members c →
  user req ∉ Community.moderators c →
  Community.creator c ≠ user req →
  let r1 := joinCommunity s req in
  let r2 := leaveCommunity r1.1 req in
  r1.2 = Success 200 (Members (len (Community.members c) + 1))
  ∧ r2.2 = Success 200 (Members (len (Community.members c)))
  ∧ Community.findOne (params_name req) (communities r2.1)
    = Some (Community.preSave c).
Proof.
  intros Hf Hm Hmod Hc. simpl.
  pose proof (findOne_Some _ _ _ Hf) as [_ Hname].
  rewrite (joinCommunity_stored _ _ _ Hf Hm). simpl.
  set (c1 := withMember (user req) c).
  assert (Community.findOne (params_name req)
            (writeDoc Community._id c1 (communities s)) = Some c1) as Hf1
    by by apply (findOne_writeDoc _ _ c).
  assert (user req ∈ Community.members c1) as Hm1
    by (simpl; apply elem_of_push; by right).
  rewrite (leaveCommunity_stored
             (set_communities (writeDoc Community._id c1 (communities s)) s)
             req c1 Hf1 Hm1 Hc).
  assert (withoutMember (user req) c1 = Community.preSave c) as ->.
  { unfold withoutMember, c1. simpl. rewrite (includes_false _ _ Hmod).
    unfold Community.preSave, Community.set_memberCount. simpl.
    rewrite without_push by done. by destruct c. }
  simpl. split; [by rewrite len_push|]. split; [done|].
  by apply (findOne_writeDoc _ _ c1).
Qed.

Lemma join_then_leave_witness :
  Community.findOne "foo"
    (communities
       (leaveCommunity
          (joinCommunity Sample.store
             (Sample.request "" "foo" Sample.bob ∅)).1
          (Sample.request "" "foo" Sample.bob ∅)).1)
  = Some (Community.preSave Sample.foo).
Proof.
  apply (join_then_leave Sample.store (Sample.request "" "foo" Sample.bob ∅)
           Sample.foo eq_refl);
    vm_compute; try discriminate;
    inversion 1 as [|? ? ? H]; inversion H.
Defined.

(** ** Creating communities, and the keys of communities *)

Lemma find_app_None {A} (f : A → bool) l l' :
  find f l = None → find f (l ++ l') = find f l'.
Proof.
  induction l as [|x l IH]; [done|]. simpl.
  destruct (f x); [done|]. apply IH.
Qed.

Lemma list_ascii_rev_app s acc :
  String.list_ascii_of_string (String.rev_app s acc)
  = List.rev (String.list_ascii_of_string s)
    ++ String.list_ascii_of_string acc.
Proof.
  revert acc. induction s as [|a s IH]; intros acc; [done|].
  simpl. rewrite IH. simpl. by rewrite <- app_assoc.
Qed.

Lemma list_ascii_rev s :
  String.list_ascii_of_string (String.rev s)
  = List.rev (String.list_ascii_of_string s).
Proof. unfold String.rev. rewrite list_ascii_rev_app. apply app_nil_r. Qed.

Lemma string_rev_involutive s : String.rev (String.rev s) = s.
Proof.
  rewrite <- (String.string_of_list_ascii_of_string (String.rev (String.rev s))).
  rewrite !list_ascii_rev, rev_involutive.
  apply String.string_of_list_ascii_of_string.
Qed.

Lemma isWordChar_not_space a :
  Community.isWordChar a = true → Ascii.is_space a = false.
Proof. by destruct a as [[] [] [] [] [] [] [] []]. Qed.

Lemma trimStart_words s :
  forallb Community.isWordChar (String.list_ascii_of_string s) = true →
  trimStart s = s.
Proof.
  destruct s as [|a s]; [done|]. simpl. intros [Ha _]%andb_prop.
  by rewrite (isWordChar_not_space _ Ha).
Qed.

(** A string of letters, digits and underscores is not changed by
    [trim]. *)
Lemma trim_words s :
  forallb Community.isWordChar (String.list_ascii_of_string s) = true →
  trim s = s.
Proof.
  intros H. unfold trim. rewrite (trimStart_words _ H).
  rewrite trimStart_words; [apply string_rev_involutive|].
  rewrite list_ascii_rev, forallb_forall. intros a Ha%in_rev.
  by eapply forallb_forall in H.
Qed.

Lemma castName_trimmed j nm : Community.castName j = Return nm → trim nm = nm.
Proof.
  unfold Community.castName, bind. intros H.
  repeat match type of H with
         | match ?m with _ => _ end = _ =>
             destruct m eqn:?; [|discriminate H]
         end.
  unfold Community.matchName in H.
  destruct (negb _ && forallb _ _) eqn:E; [|done]. injection H as <-.
  apply andb_prop in E as [_ E]. by apply trim_words.
Qed.

(** What a successful [Community.create] returns, and why the new name
    and identifier are free. *)
Lemma Community_create_Return newId body uid coll c :
  Community.create newId body uid [uid] [uid] coll = Return c →
  c = Community.mk newId (Community.name c) (Community.description c)
        uid [uid] [uid] 1
  ∧ findDoc Community._id coll newId = None
  ∧ trim (Community.name c) = Community.name c
  ∧ Community.findOne (Community.name c) coll = None.
Proof.
  unfold Community.create, bind. intros H.
  destruct (Community.requiredPath Community.castName _) as [nm|] eqn:Hnm;
    [|done].
  destruct (Community.requiredPath Community.castDescription _) as [ds|];
    [|done].
  destruct (castPath castNumber _); [|done].
  unfold uniqueId in H.
  destruct (findDoc Community._id coll newId) eqn:Hid; [done|].
  unfold Community.uniqueName in H.
  destruct (existsb _ coll) eqn:Hex; [done|].
  injection H as <-. simpl. split; [done|]. split; [done|].
  assert (trim nm = nm) as Htrim.
  { unfold Community.requiredPath in Hnm.
    destruct (body !! "name") as [j|]; [|done]. by eapply castName_trimmed. }
  split; [done|].
  destruct (Community.findOne nm coll) as [x|] eqn:Hf; [|done].
  apply findOne_Some in Hf as [Hin Hx]. rewrite Htrim in Hx.
  assert (existsb
            (λ c, String.eqb (Community.name c) nm
                  && negb (bool_decide (Community._id c = newId))) coll
          = true) as Hex'; [|congruence].
  apply existsb_exists. exists x. split; [done|].
  rewrite Hx, String.eqb_refl. simpl.
  rewrite bool_decide_eq_false_2; [done|].
  by apply (proj1 (findDoc_None _ _ _) Hid).
Qed.

(** X11: a successful [createCommunity] appends one community whose
    creator, only moderator and only member is the actor and whose count
    is 1, whatever the body says about these fields; its name was free,
    and a lookup by its name now finds it.  Posts and comments are not
    touched. *)
Theorem createCommunity_success newId s req s' d :
  createCommunity newId s req = (s', Success 201 d) →
  ∃ c,
    d = ACommunity c
    ∧ communities s' = communities s ++ [c]
    ∧ Community.creator c = user req
    ∧ Community.moderators c = [user req]
    ∧ Community.members c = [user req]
    ∧ Community.memberCount c = 1
    ∧ Community.findOne (Community.name c) (communities s) = None
    ∧ Community.findOne (Community.name c) (communities s') = Some c
    ∧ posts s' = posts s ∧ comments s' = comments s.
Proof.
  unfold createCommunity. destruct (invalid req); [done|].
  destruct (Community.findOneByBody _ _) as [[x|]|]; simpl; try done.
  destruct (Community.create _ _ _ _ _ _) as [c|] eqn:Hc; simpl; [|done].
  intros [= <- <-]. exists c.
  apply Community_create_Return in Hc as (Heq & Hid & Htrim & Hnm).
  assert (Community.creator c = user req
          ∧ Community.moderators c = [user req]
          ∧ Community.members c = [user req]
          ∧ Community.memberCount c = 1) as (? & ? & ? & ?)
    by (by rewrite Heq).
  repeat split; try done.
  unfold Community.findOne, insertDoc. simpl.
  rewrite find_app_None by exact Hnm.
  simpl. by rewrite Htrim, String.eqb_refl.
Qed.

Lemma createCommunity_success_witness :
  ∃ c,
    communities (createCommunity 17%N Sample.store inflatedBar).1
    = [Sample.foo; c]
    ∧ Community.memberCount c = 1.
Proof.
  edestruct (createCommunity_success 17%N Sample.store inflatedBar)
    as (c & _ & H1 & _ & _ & _ & H2 & _).
  { vm_compute. reflexivity. }
  exists c. split; [exact H1|exact H2].
Defined.

Lemma unique_key {D K} (key : D → K) coll x y :
  NoDup (key <$> coll) → In x coll → In y coll → key x = key y → x = y.
Proof.
  induction coll as [|z coll IH]; [done|]. simpl.
  rewrite NoDup_cons. intros [Hz Hnd] [->|Hx] [->|Hy] Hk; auto.
  - destruct Hz. rewrite Hk. apply list_elem_of_fmap. exists y.
    split; [done|]. by apply list_elem_of_In.
  - destruct Hz. rewrite <- Hk. apply list_elem_of_fmap. exists x.
    split; [done|]. by apply list_elem_of_In.
Qed.

Lemma writeDoc_fmap {D B} (id_of : D → ObjectId) (f : D → B) d coll :
  f <$> writeDoc id_of d coll
  = (λ x, f (if bool_decide (id_of x = id_of d) then d else x)) <$> coll.
Proof.
  unfold writeDoc. induction coll as [|x coll IH]; [done|].
  cbn [List.map]. by rewrite !fmap_cons, IH.
Qed.

(** Writing back a stored community keeps the keys, when no community
    with another identifier has the name that is written. *)
Lemma wellKeyed_writeDoc coll c c' :
  wellKeyed coll → In c coll →
  Community._id c' = Community._id c →
  (∀ x, In x coll → Community.name x = Community.name c' →
        Community._id x = Community._id c) →
  wellKeyed (writeDoc Community._id c' coll).
Proof.
  intros [Hids Hnames] Hin Hid Hfree. split; [by rewrite writeDoc_ids|].
  rewrite writeDoc_fmap. apply NoDup_fmap_2_strong.
  - intros x y Hx%list_elem_of_In Hy%list_elem_of_In.
    rewrite Hid.
    destruct (decide (Community._id x = Community._id c)) as [Ex|Ex];
      destruct (decide (Community._id y = Community._id c)) as [Ey|Ey];
      rewrite ?(bool_decide_eq_true_2 _ Ex), ?(bool_decide_eq_false_2 _ Ex),
        ?(bool_decide_eq_true_2 _ Ey), ?(bool_decide_eq_false_2 _ Ey).
    + intros _. eapply (unique_key Community._id); eauto. congruence.
    + intros E. destruct Ey. by apply Hfree.
    + intros E. destruct Ex. by apply Hfree.
    + intros E. by eapply (unique_key Community.name).
  - by eapply NoDup_fmap_1.
Qed.

Lemma wellKeyed_same_name coll c c' :
  wellKeyed coll → In c coll →
  Community._id c' = Community._id c →
  Community.name c' = Community.name c →
  wellKeyed (writeDoc Community._id c' coll).
Proof.
  intros Hk Hin Hid Hnm. apply (wellKeyed_writeDoc _ c); try done.
  intros x Hx E. f_equal. eapply (unique_key Community.name); eauto.
  - apply Hk.
  - congruence.
Qed.

Lemma joinCommunity_wellKeyed s req :
  wellKeyed (communities s) → wellKeyed (communities (joinCommunity s req).1).
Proof.
  intros Hk.
  destruct (Community.findOne (params_name req) (communities s))
    as [c|] eqn:Hf; [|unfold joinCommunity; by rewrite Hf].
  destruct (decide (user req ∈ Community.members c)) as [Hin|Hn].
  - unfold joinCommunity. by rewrite Hf, (includes_true _ _ Hin).
  - rewrite (joinCommunity_stored _ _ _ Hf Hn). simpl.
    apply findOne_Some in Hf as [Hin _].
    by apply (wellKeyed_same_name _ c).
Qed.

Lemma leaveCommunity_wellKeyed s req :
  wellKeyed (communities s) →
  wellKeyed (communities (leaveCommunity s req).1).
Proof.
  intros Hk.
  destruct (Community.findOne (params_name req) (communities s))
    as [c|] eqn:Hf; [|unfold leaveCommunity; by rewrite Hf].
  destruct (decide (user req ∈ Community.members c)) as [Hin|Hn];
    [|unfold leaveCommunity; by rewrite Hf, (includes_false _ _ Hn)].
  destruct (decide (Community.creator c = user req)) as [Hc|Hc];
    [by rewrite (leaveCommunity_creator _ _ _ Hf Hc)|].
  rewrite (leaveCommunity_stored _ _ _ Hf Hin Hc). simpl.
  apply findOne_Some in Hf as [Hc' _].
  apply (wellKeyed_same_name _ c); try done;
    unfold withoutMember; simpl;
    by destruct (includes (Community.moderators c) (user req)).
Qed.

Lemma createCommunity_wellKeyed newId s req :
  wellKeyed (communities s) →
  wellKeyed (communities (createCommunity newId s req).1).
Proof.
  intros [Hids Hnames]. unfold createCommunity.
  destruct (invalid req); [done|].
  destruct (Community.findOneByBody _ _) as [[x|]|]; simpl; try done.
  destruct (Community.create _ _ _ _ _ _) as [c|] eqn:Hc; simpl; [|done].
  apply Community_create_Return in Hc as (Heq & Hfresh & Htrim & Hfree).
  assert (Community._id c = newId) as Hid by (by rewrite Heq).
  unfold wellKeyed, insertDoc. rewrite !fmap_app. simpl.
  split; apply NoDup_app; (split; [done|]);
    (split; [|apply NoDup_singleton]);
    intros k Hk ->%list_elem_of_singleton;
    apply list_elem_of_fmap in Hk as (x & Hx & Hin%list_elem_of_In).
  - rewrite Hid in Hx. by apply (proj1 (findDoc_None _ _ _) Hfresh x Hin).
  - unfold Community.findOne in Hfree.
    eapply find_none in Hfree; [|exact Hin].
    rewrite Htrim, Hx, String.eqb_refl in Hfree. done.
Qed.

Lemma uniqueName_Return id nm coll :
  Community.uniqueName id nm coll = Return tt →
  ∀ x, In x coll → Community.name x = nm → Community._id x = id.
Proof.
  unfold Community.uniqueName. destruct (existsb _ coll) eqn:E; [done|].
  intros _ x Hin Hnm. destruct (decide (Community._id x = id)); [done|].
  assert (existsb
            (λ c, String.eqb (Community.name c) nm
                  && negb (bool_decide (Community._id c = id))) coll = true)
    as E'; [|congruence].
  apply existsb_exists. exists x. split; [done|].
  rewrite Hnm, String.eqb_refl. simpl. by rewrite bool_decide_eq_false_2.
Qed.

Lemma updateCommunity_wellKeyed s req :
  wellKeyed (communities s) →
  wellKeyed (communities (updateCommunity s req).1).
Proof.
  intros Hk. unfold updateCommunity.
  destruct (Community.findOne (params_name req) (communities s))
    as [c|] eqn:Hf; [|done].
  destruct (negb (includes (Community.moderators c) (user req))); [done|].
  apply findOne_Some in Hf as [Hin _].
  unfold Community.findByIdAndUpdate, catch, bind.
  destruct (Community.castUpdate _) as [u|]; [|done].
  destruct (Community.u_name u) as [nm|] eqn:Hu.
  - destruct (Community.uniqueName _ _ _) as [[]|] eqn:Hq; [|done]. simpl.
    apply (wellKeyed_writeDoc _ c); try done.
    + apply Community_applyUpdate_id.
    + rewrite Community_applyUpdate_name, Hu. simpl.
      by apply uniqueName_Return.
  - simpl. apply (wellKeyed_same_name _ c); try done.
    + apply Community_applyUpdate_id.
    + by rewrite Community_applyUpdate_name, Hu.
Qed.

(** X12: identifiers and names stay keys of the communities.  From a
    store in which no two communities share an identifier or a name,
    every sequence of create, update, join and leave requests, answered
    in whatever way, leads to a store with the same property: a lookup by
    name never has two candidates. *)
Theorem community_keys_invariant rs :
  ∀ s, wellKeyed (communities s) →
       wellKeyed (communities (communitySteps s rs)).
Proof.
  induction rs as [|r rs IH]; intros s Hk; [done|]. simpl. apply IH.
  destruct r; simpl.
  - by apply createCommunity_wellKeyed.
  - by apply updateCommunity_wellKeyed.
  - by apply joinCommunity_wellKeyed.
  - by apply leaveCommunity_wellKeyed.
Qed.

Lemma community_keys_invariant_witness :
  wellKeyed
    (communities
       (communitySteps Sample.store
          [DoCreate 17%N inflatedBar;
           DoUpdate (Sample.request "" "bar" Sample.bob
                       {[ "name" := JStr "foo" ]});
           DoJoin (Sample.request "" "bar" Sample.alice ∅)])).
Proof.
  apply community_keys_invariant.
  split; simpl; apply NoDup_singleton.
Defined.

(** ** Updating a comment *)



(** ** Creating a post *)

Lemma createPostDocument_Return newId body author community coll p :
  createPostDocument newId body author community coll = Return p →
  Post.author p = author ∧ Post.community p = community
  ∧ Post.voteScore p = len (Post.upvotes p) - len (Post.downvotes p)
  ∧ findDoc Post._id coll (Post._id p) = None.
Proof.
  unfold createPostDocument, bind. intros H.
  repeat match type of H with
         | match ?m with _ => _ end = _ =>
             destruct m eqn:?; [|discriminate H]
         end.
  injection H as <-. simpl. repeat split.
  unfold uniqueId in *. by destruct (findDoc Post._id coll _).
Qed.




(** ** Threads *)

Global Instance byScore_total : Total byScore.
Proof. intros a b. unfold byScore. lia. Qed.

Global Instance byScore_trans : Transitive byScore.
Proof. intros a b c. unfold byScore. lia. Qed.

Lemma sortByScore_perm l : sortByScore l ≡ₚ l.
Proof. apply merge_sort_Permutation. Qed.

Lemma sortByScore_sorted l : StronglySorted byScore (sortByScore l).
Proof. apply StronglySorted_merge_sort; apply _. Qed.

Lemma in_sorted_findMany (q : Comment.t → bool) coll r :
  r ∈ sortByScore (findMany q coll) → In r coll ∧ q r = true.
Proof.
  rewrite sortByScore_perm. intros H%list_elem_of_In.
  by apply filter_In in H.
Qed.

Lemma threaded_Node coll c rs :
  threaded coll (Node c rs)
  ↔ StronglySorted byScore (root <$> rs)
    ∧ root <$> rs ≡ₚ findMany (hasParent (Comment._id c)) coll
    ∧ Forall (threaded coll) rs.
Proof.
  simpl. do 2 (apply and_iff_compat_l).
  induction rs as [|t rs IH]; [by split|].
  rewrite Forall_cons. by rewrite IH.
Qed.

(** The results of a successful [mapM] of nodes have the mapped comments
    as their roots. *)
Lemma mapM_Node_roots (f : Comment.t → option (list Thread)) l ts :
  mapM (λ c, Node c <$> f c) l = Some ts →
  root <$> ts = l ∧ Forall (λ t, f (root t) = Some (repliesOf t)) ts.
Proof.
  revert ts. induction l as [|c l IH]; intros ts H.
  - injection H as <-. by split.
  - simpl in H. destruct (f c) as [rs|] eqn:Hc; [|done]. simpl in H.
    destruct (mapM _ l) as [ts'|] eqn:Hl; [|done]. injection H as <-.
    destruct (IH ts' eq_refl) as [Hr Hf]. rewrite fmap_cons, Hr.
    split; [done|]. by constructor.
Qed.

(** Whatever the fuel, the lists of replies that are returned are
    materialized threads. *)
Lemma getCommentWithReplies_threaded coll fuel :
  ∀ c rs, getCommentWithReplies fuel coll c = Some rs →
          threaded coll (Node c rs).
Proof.
  induction fuel as [|fuel IH]; intros c rs H; [done|].
  simpl in H. apply mapM_Node_roots in H as [Hr Hf].
  apply threaded_Node. rewrite Hr.
  split; [apply sortByScore_sorted|]. split; [apply sortByScore_perm|].
  eapply Forall_impl; [exact Hf|]. intros [c' rs'] H. simpl in H.
  by apply IH.
Qed.

(** More fuel does not change a result. *)
Lemma mapM_Node_ext (f g : Comment.t → option (list Thread)) l ts :
  (∀ c rs, f c = Some rs → g c = Some rs) →
  mapM (λ c, Node c <$> f c) l = Some ts →
  mapM (λ c, Node c <$> g c) l = Some ts.
Proof.
  intros Hfg. revert ts. induction l as [|c l IH]; intros ts H; [done|].
  simpl in *. destruct (f c) as [rs|] eqn:Hc; [|done].
  rewrite (Hfg _ _ Hc). simpl in *.
  destruct (mapM _ l) as [ts'|] eqn:Hl; [|done].
  by rewrite (IH ts' eq_refl).
Qed.

Lemma getCommentWithReplies_more coll fuel :
  ∀ c rs, getCommentWithReplies fuel coll c = Some rs →
          getCommentWithReplies (S fuel) coll c = Some rs.
Proof.
  induction fuel as [|fuel IH]; intros c rs H; [done|].
  change (getCommentWithReplies (S (S fuel)) coll c)
    with (mapM (λ r, Node r <$> getCommentWithReplies (S fuel) coll r)
            (sortByScore (findMany (hasParent (Comment._id c)) coll))).
  eapply mapM_Node_ext; [exact IH|exact H].
Qed.

Lemma getCommentWithReplies_mono coll fuel fuel' c rs :
  (fuel ≤ fuel')%nat →
  getCommentWithReplies fuel coll c = Some rs →
  getCommentWithReplies fuel' coll c = Some rs.
Proof.
  induction 1 as [|fuel' _ IH]; [done|].
  intros H. by apply getCommentWithReplies_more, IH.
Qed.

(** The parent of a comment on an ancestry path is further up the path. *)
Lemma ancestry_parent path :
  ∀ c x i, ancestry c path → x ∈ c :: path →
           Comment.parent x = Some i → i ∈ Comment._id <$> path.
Proof.
  induction path as [|p path IH]; intros c x i Ha Hx Hi; simpl in Ha.
  - apply list_elem_of_singleton in Hx as ->. congruence.
  - destruct Ha as [Hc Ha]. apply elem_of_cons in Hx as [->|Hx].
    + rewrite Hc in Hi. injection Hi as <-. rewrite fmap_cons. by left.
    + rewrite fmap_cons. right. by eapply IH.
Qed.

(** The recursion goes as deep as an ancestry path, and a path of
    distinct stored comments is no longer than the collection. *)
Lemma enough_fuel coll :
  NoDup (Comment._id <$> coll) →
  ∀ fuel c path,
    NoDup (Comment._id <$> c :: path) →
    (∀ x, x ∈ c :: path → In x coll) →
    ancestry c path →
    (length coll < fuel + length (c :: path))%nat →
    is_Some (getCommentWithReplies fuel coll c).
Proof.
  intros Hids. induction fuel as [|fuel IH]; intros c path Hnd Hin Ha Hlen.
  - exfalso.
    assert (length (Comment._id <$> c :: path)
            ≤ length (Comment._id <$> coll))%nat as Hle.
    { apply submseteq_length, NoDup_submseteq; [done|].
      intros i (x & -> & Hx)%list_elem_of_fmap.
      apply list_elem_of_fmap_2. by apply list_elem_of_In, Hin. }
    rewrite !length_fmap in Hle. lia.
  - simpl. apply mapM_is_Some_2, Forall_forall. intros r Hr.
    apply in_sorted_findMany in Hr as [Hr Hp].
    apply bool_decide_eq_true in Hp. simpl. apply fmap_is_Some.
    apply (IH r (c :: path)).
    + rewrite fmap_cons. apply NoDup_cons. split; [|done].
      intros (x & Hid & Hx)%list_elem_of_fmap.
      assert (r = x) as ->.
      { eapply (unique_key Comment._id);
          [exact Hids|exact Hr|by apply Hin|exact Hid]. }
      pose proof (ancestry_parent _ _ _ _ Ha Hx Hp) as Hc.
      rewrite fmap_cons in Hnd. apply NoDup_cons in Hnd as [Hnd _].
      done.
    + intros x [->|Hx]%elem_of_cons; auto.
    + done.
    + simpl in *. lia.
Qed.

Lemma getPostComments_mono s req fuel fuel' a :
  (fuel ≤ fuel')%nat →
  getPostComments fuel s req = Some a →
  getPostComments fuel' s req = Some a.
Proof.
  intros Hle. unfold getPostComments.
  destruct (findById Post._id (posts s) (params_id req)) as [[p|]|];
    [|done|done].
  destruct (mapM _ _) as [ts|] eqn:H; [|done].
  eapply mapM_Node_ext in H;
    [|intros c rs; apply (getCommentWithReplies_mono _ fuel fuel' _ _ Hle)].
  by rewrite H.
Qed.

(** X15: materializing the thread of a post terminates.  In a store whose
    comments have distinct identifiers the recursion of [getPostComments]
    never goes deeper than the number of stored comments: with that much
    fuel, or more, the handler returns, and returns the same answer. *)
Theorem getPostComments_returns s req :
  NoDup (Comment._id <$> comments s) →
  ∃ a, ∀ fuel, (length (comments s) ≤ fuel)%nat →
               getPostComments fuel s req = Some a.
Proof.
  intros Hids.
  assert (is_Some (getPostComments (length (comments s)) s req)) as [a Ha].
  { unfold getPostComments.
    destruct (findById Post._id (posts s) (params_id req)) as [[p|]|];
      [|done|done].
    assert (is_Some
              (mapM (λ c, Node c
                            <$> getCommentWithReplies (length (comments s))
                                  (comments s) c)
                 (sortByScore
                    (findMany (topLevelOf (Post._id p)) (comments s)))))
      as [ts Hts]; [|by rewrite Hts].
    apply mapM_is_Some_2, Forall_forall. intros c Hc.
    apply in_sorted_findMany in Hc as [Hc Hq].
    apply andb_prop in Hq as [_ Hq]. apply bool_decide_eq_true in Hq.
    simpl. apply fmap_is_Some. apply (enough_fuel _ Hids _ c []).
    - apply NoDup_singleton.
    - by intros x ->%list_elem_of_singleton.
    - done.
    - simpl. lia. }
  exists a. intros fuel Hle. by eapply getPostComments_mono.
Qed.

Lemma getPostComments_returns_witness :
  ∃ a, ∀ fuel, (length (comments Sample.store) ≤ fuel)%nat →
               getPostComments fuel Sample.store
                 (Sample.request Sample.postId "" Sample.alice ∅) = Some a.
Proof.
  apply getPostComments_returns.
  apply (bool_decide_unpack _). vm_compute. exact I.
Defined.

(** X16: the thread that [getPostComments] returns.  The count is the
    number of top-level threads; their roots are the stored comments of
    the post without a parent, each once, the higher score first; and
    under every comment of the tree, at any depth, the replies are the
    stored comments whose parent it is, each once, the higher score
    first. *)
Theorem getPostComments_thread fuel s req n ts :
  getPostComments fuel s req = Some (Sent 200 (n, ts)) →
  ∃ p,
    findById Post._id (posts s) (params_id req) = Return (Some p)
    ∧ n = len ts
    ∧ StronglySorted byScore (root <$> ts)
    ∧ root <$> ts ≡ₚ findMany (topLevelOf (Post._id p)) (comments s)
    ∧ Forall (threaded (comments s)) ts.
Proof.
  unfold getPostComments.
  destruct (findById Post._id (posts s) (params_id req)) as [[p|]|];
    [|done|done].
  destruct (mapM _ _) as [ts'|] eqn:H; [|done].
  intros [= <- <-]. exists p. split; [done|]. split; [done|].
  apply mapM_Node_roots in H as [Hr Hf]. rewrite Hr.
  split; [apply sortByScore_sorted|]. split; [apply sortByScore_perm|].
  eapply Forall_impl; [exact Hf|]. intros [c rs] Hc. simpl in Hc.
  by eapply getCommentWithReplies_threaded.
Qed.

Lemma getPostComments_thread_witness :
  ∃ p,
    findById Post._id (posts Sample.store) Sample.postId = Return (Some p)
    ∧ root <$> [Node Sample.c1 [Node Sample.c2 [Node Sample.c3 []]]]
      ≡ₚ findMany (topLevelOf (Post._id p)) (comments Sample.store).
Proof.
  destruct (getPostComments_thread 3 Sample.store
              (Sample.request Sample.postId "" Sample.alice ∅) 1
              [Node Sample.c1 [Node Sample.c2 [Node Sample.c3 []]]] eq_refl)
    as (p & Hp & _ & _ & Hperm & _).
  exists p. split; [exact Hp|exact Hperm].
Defined.

(** ** Which comments a thread shows *)

Lemma nodes_Node c rs : nodes (Node c rs) = Node c rs :: allNodes rs.
Proof.
  simpl. f_equal.
Qed.

Lemma elem_of_allNodes t ts :
  t ∈ allNodes ts ↔ ∃ t0, t0 ∈ ts ∧ t ∈ nodes t0.
Proof.
  unfold allNodes. rewrite list_elem_of_bind.
  split; intros (y & ? & ?); by exists y.
Qed.

Lemma elem_of_nodes_self t : t ∈ nodes t.
Proof. destruct t. rewrite nodes_Node. by left. Qed.

Lemma mapM_Node_grown coll fuel l ts :
  mapM (λ c, Node c <$> getCommentWithReplies fuel coll c) l = Some ts →
  root <$> ts = l ∧ Forall (grown coll) ts.
Proof.
  intros H. apply mapM_Node_roots in H as [Hr Hf]. split; [done|].
  eapply Forall_impl; [exact Hf|]. intros t Ht. by exists fuel.
Qed.

(** The direct replies of a grown node are grown, and are the sorted
    children of its root. *)
Lemma grown_replies coll t :
  grown coll t →
  root <$> repliesOf t
  = sortByScore (findMany (hasParent (Comment._id (root t))) coll)
  ∧ Forall (grown coll) (repliesOf t).
Proof.
  intros [[|fuel] H]; [done|]. simpl in H.
  by apply mapM_Node_grown in H.
Qed.

(** Every node below a grown node is grown: induction on the fuel that
    grew it. *)
Lemma grown_nodes coll fuel :
  ∀ t, getCommentWithReplies fuel coll (root t) = Some (repliesOf t) →
       ∀ t', t' ∈ nodes t → grown coll t'.
Proof.
  induction fuel as [|fuel IH]; intros [c rs] H t' Ht'; [done|].
  rewrite nodes_Node in Ht'. apply elem_of_cons in Ht' as [->|Ht'].
  { by exists (S fuel). }
  simpl in H. apply mapM_Node_roots in H as [_ Hf].
  apply elem_of_allNodes in Ht' as (t0 & Ht0 & Ht').
  eapply Forall_forall in Hf; [|exact Ht0]. by eapply IH.
Qed.

(** The nodes below a grown node are closed under replies. *)
Lemma nodes_closed coll fuel :
  ∀ t, getCommentWithReplies fuel coll (root t) = Some (repliesOf t) →
       ∀ t' t'', t' ∈ nodes t → t'' ∈ repliesOf t' → t'' ∈ nodes t.
Proof.
  induction fuel as [|fuel IH]; intros [c rs] H t' t'' Ht' Ht''; [done|].
  rewrite nodes_Node in *. right.
  apply elem_of_cons in Ht' as [->|Ht'].
  { simpl in Ht''. apply elem_of_allNodes. exists t''.
    split; [done|apply elem_of_nodes_self]. }
  simpl in H. apply mapM_Node_roots in H as [_ Hf].
  apply elem_of_allNodes in Ht' as (t0 & Ht0 & Ht').
  eapply Forall_forall in Hf; [|exact Ht0].
  apply elem_of_allNodes. exists t0. split; [done|]. by eapply IH.
Qed.

Lemma last_cons_default {A} (l : list A) x d d' :
  List.last (x :: l) d = List.last (x :: l) d'.
Proof.
  revert x. induction l as [|y l IH]; intros x; [done|].
  change (List.last (y :: l) d = List.last (y :: l) d'). apply IH.
Qed.

(** The root of every node below a grown node hangs, by a chain of
    stored parents, under the root of that node. *)
Lemma nodes_ancestry coll fuel :
  ∀ t cpath,
    getCommentWithReplies fuel coll (root t) = Some (repliesOf t) →
    ancestry (root t) cpath →
    (∀ x, x ∈ root t :: cpath → In x coll) →
    ∀ t', t' ∈ nodes t →
    ∃ path, ancestry (root t') path
            ∧ (∀ x, x ∈ root t' :: path → In x coll)
            ∧ List.last path (root t') = List.last cpath (root t).
Proof.
  induction fuel as [|fuel IH]; intros [c rs] cpath H Ha Hin t' Ht'; [done|].
  rewrite nodes_Node in Ht'. apply elem_of_cons in Ht' as [->|Ht'].
  { by exists cpath. }
  simpl in *. apply mapM_Node_roots in H as [Hr Hf].
  apply elem_of_allNodes in Ht' as (t0 & Ht0 & Ht').
  pose proof (proj1 (Forall_forall _ _) Hf t0 Ht0) as H0.
  assert (root t0 ∈ sortByScore (findMany (hasParent (Comment._id c)) coll))
    as Hc0 by (rewrite <- Hr; by apply list_elem_of_fmap_2).
  apply in_sorted_findMany in Hc0 as [Hc0 Hp0].
  apply bool_decide_eq_true in Hp0.
  destruct (IH t0 (c :: cpath) H0) with (t' := t') as (path & ? & ? & Hl);
    try done.
  - intros x [->|Hx]%elem_of_cons; auto.
  - exists path. split; [done|]. split; [done|]. rewrite Hl.
    destruct cpath as [|y cpath]; [done|].
    exact (last_cons_default cpath y _ _).
Qed.

(** X17: which comments the thread of a post shows.  A comment is the
    root of a node of the thread that [getPostComments] returns exactly
    when its chain of parents leads, through stored comments, to a
    comment without parent that belongs to the post.  A comment whose
    chain of parents is broken, because an ancestor is not stored, is
    not shown although it is stored. *)
Theorem thread_shows_reachable fuel s req n ts p :
  getPostComments fuel s req = Some (Sent 200 (n, ts)) →
  findById Post._id (posts s) (params_id req) = Return (Some p) →
  ∀ c, c ∈ root <$> allNodes ts ↔ reaches (Post._id p) (comments s) c.
Proof.
  unfold getPostComments. intros H Hp. rewrite Hp in H.
  destruct (mapM _ _) as [ts'|] eqn:Hts; [|done].
  injection H as _ <-. apply mapM_Node_grown in Hts as [Hr Hg].
  assert (∀ t, t ∈ ts' →
            In (root t) (comments s)
            ∧ topLevelOf (Post._id p) (root t) = true) as Htop.
  { intros t Ht. apply in_sorted_findMany. rewrite <- Hr.
    by apply list_elem_of_fmap_2. }
  intros c. split.
  - intros (t & -> & Ht)%list_elem_of_fmap.
    apply elem_of_allNodes in Ht as (t0 & Ht0 & Ht).
    destruct (Htop t0 Ht0) as [Hin Hq].
    apply andb_prop in Hq as [Hpost Hnone].
    apply bool_decide_eq_true in Hpost, Hnone.
    destruct (proj1 (Forall_forall _ _) Hg t0 Ht0) as [fuel0 H0].
    destruct (nodes_ancestry _ _ t0 [] H0 Hnone) with (t' := t)
      as (path & ? & ? & Hl); try done.
    { by intros x ->%list_elem_of_singleton. }
    exists path. split; [done|]. split; [done|]. by rewrite Hl.
  - intros (path & Ha & Hin & Hpost).
    revert c Ha Hin Hpost.
    induction path as [|q path IH]; intros c Ha Hin Hpost; simpl in *.
    + assert (c ∈ root <$> ts') as (t & -> & Ht)%list_elem_of_fmap.
      { rewrite Hr, sortByScore_perm. apply list_elem_of_In, filter_In.
        split; [apply Hin; by left|]. unfold topLevelOf, ofPost.
        by rewrite !bool_decide_eq_true_2. }
      apply list_elem_of_fmap_2, elem_of_allNodes. exists t.
      split; [done|apply elem_of_nodes_self].
    + destruct Ha as [Hc Ha].
      assert (q ∈ root <$> allNodes ts') as (tq & -> & Htq)%list_elem_of_fmap.
      { apply IH; [done| |].
        - intros x Hx. apply Hin. by right.
        - destruct path as [|y path']; [done|].
          by rewrite (last_cons_default path' y q c). }
      apply elem_of_allNodes in Htq as (t0 & Ht0 & Htq).
      destruct (proj1 (Forall_forall _ _) Hg t0 Ht0) as [fuel0 H0].
      pose proof (grown_nodes _ _ _ H0 _ Htq) as Hgq.
      apply grown_replies in Hgq as [Hrq _].
      assert (c ∈ root <$> repliesOf tq) as (tc & -> & Htc)%list_elem_of_fmap.
      { rewrite Hrq, sortByScore_perm. apply list_elem_of_In, filter_In.
        split; [apply Hin; by left|]. unfold hasParent.
        by rewrite bool_decide_eq_true_2. }
      apply list_elem_of_fmap_2, elem_of_allNodes. exists t0.
      split; [done|]. by eapply nodes_closed.
Qed.

Lemma thread_shows_reachable_witness :
  Sample.c3
  ∈ root <$> allNodes [Node Sample.c1 [Node Sample.c2 [Node Sample.c3 []]]]
  ↔ reaches (Post._id Sample.post) (comments Sample.store) Sample.c3.
Proof.
  apply (thread_shows_reachable 3 Sample.store
           (Sample.request Sample.postId "" Sample.alice ∅) 1
           [Node Sample.c1 [Node Sample.c2 [Node Sample.c3 []]]] Sample.post
           eq_refl eq_refl).
Defined.

(** ** Replies, and reading back what was written *)

(** X18: the replies endpoint agrees with the thread.  For every node of
    the thread that [getPostComments] returns, at any depth,
    [getCommentReplies] asked for the comment of the node answers with
    the comments of the replies of the node, each once and the higher
    score first, and with their number. *)
Theorem replies_agree_with_thread fuel s req n ts t req' :
  getPostComments fuel s req = Some (Sent 200 (n, ts)) →
  t ∈ allNodes ts →
  findById Comment._id (comments s) (params_id req') = Return (Some (root t)) →
  ∃ replies,
    getCommentReplies s req' = Sent 200 (len (repliesOf t), replies)
    ∧ replies ≡ₚ root <$> repliesOf t
    ∧ StronglySorted byScore replies.
Proof.
  unfold getPostComments. intros H Ht Hf.
  destruct (findById Post._id (posts s) (params_id req)) as [[p|]|];
    [|done|done].
  destruct (mapM _ _) as [ts'|] eqn:Hts; [|done].
  injection H as _ <-. apply mapM_Node_grown in Hts as [_ Hg].
  apply elem_of_allNodes in Ht as (t0 & Ht0 & Ht).
  destruct (proj1 (Forall_forall _ _) Hg t0 Ht0) as [fuel0 H0].
  pose proof (grown_nodes _ _ _ H0 _ Ht) as Hgt.
  apply grown_replies in Hgt as [Hr _].
  exists (root <$> repliesOf t). split; [|split; [done|]].
  - unfold getCommentReplies. rewrite Hf, <- Hr. unfold len.
    by rewrite length_fmap.
  - rewrite Hr. apply sortByScore_sorted.
Qed.

Lemma replies_agree_with_thread_witness :
  ∃ replies,
    getCommentReplies Sample.store
      (Sample.request "000000000000000000000032" "" Sample.alice ∅)
    = Sent 200 (1, replies)
    ∧ replies ≡ₚ [Sample.c3]
    ∧ StronglySorted byScore replies.
Proof.
  apply (replies_agree_with_thread 3 Sample.store
           (Sample.request Sample.postId "" Sample.alice ∅) 1
           [Node Sample.c1 [Node Sample.c2 [Node Sample.c3 []]]]
           (Node Sample.c2 [Node Sample.c3 []])
           (Sample.request "000000000000000000000032" "" Sample.alice ∅)
           eq_refl).
  - vm_compute. right. left.
  - reflexivity.
Defined.

Lemma addComment_created newId s req s' c :
  addComment newId s req = (s', Success 201 (AComment c)) →
  comments s' = comments s ++ [c] ∧ Comment._id c = newId
  ∧ findDoc Comment._id (comments s) newId = None.
Proof.
  unfold addComment. destruct (invalid req); [done|].
  destruct (findById Post._id (posts s) (params_id req)) as [[p|]|];
    [|done|done].
  simpl. destruct (Comment.create _ _ _ _ _ _) as [c'|] eqn:Hc; [|done].
  simpl. intros [= <- <-]. unfold Comment.create, bind in Hc.
  repeat match type of Hc with
         | match ?m with _ => _ end = _ =>
             destruct m eqn:?; [|discriminate Hc]
         end.
  injection Hc as <-. simpl. repeat split.
  unfold uniqueId in *. by destruct (findDoc Comment._id (comments s) newId).
Qed.

(** X19: a comment that was added can be read back.  After a successful
    [addComment], [getComment] asked for the generated identifier, in
    any spelling of its 24 digits, answers 200 with the comment that the
    [addComment] returned. *)
Theorem addComment_then_getComment newId s req s' c req' :
  addComment newId s req = (s', Success 201 (AComment c)) →
  parseObjectId (params_id req') = Some newId →
  getComment s' req' = Sent 200 c.
Proof.
  intros H Hid. apply addComment_created in H as (Hs & Hc & Hfresh).
  unfold getComment, findById, findDoc in *. rewrite Hid, Hs.
  rewrite find_app_None by done. simpl.
  by rewrite bool_decide_eq_true_2.
Qed.

Lemma addComment_then_getComment_witness :
  getComment (addComment 171%N Sample.store danglingReply).1
    (Sample.request "0000000000000000000000AB" "" Sample.alice ∅)
  = Sent 200
      (Comment.mk 171%N "reply" Sample.carol 32%N (Some 255%N) [] [] 0).
Proof.
  eapply (addComment_then_getComment 171%N Sample.store danglingReply);
    reflexivity.
Defined.

(** X20: what a successful [deleteComment] removes and what it keeps.
    The stored comments afterwards are those stored before other than the
    comment itself and the comments whose parent it is; communities are
    not touched, and of the posts only the post of the comment is written
    back. *)
Theorem deleteComment_removes s req c s' d :
  findById Comment._id (comments s) (params_id req) = Return (Some c) →
  deleteComment s req = (s', Success 200 d) →
  (∀ x, In x (comments s') ↔
        In x (comments s)
        ∧ Comment._id x ≠ Comment._id c
        ∧ Comment.parent x ≠ Some (Comment._id c))
  ∧ communities s' = communities s
  ∧ ∃ p', Post._id p' = Comment.post c
          ∧ posts s' = writeDoc Post._id p' (posts s).
Proof.
  intros Hc H.
  destruct (findDoc Post._id (posts s) (Comment.post c)) as [p|] eqn:Hp.
  - destruct (decide (mayDeleteComment (user req) c p)) as [Ha|Hn].
    + rewrite (deleteComment_authorized _ _ _ _ Hc Hp Ha) in H.
      injection H as <- _. simpl. split; [|split; [done|]].
      * intros x. rewrite in_removeDoc, in_deleteMany. unfold hasParent.
        rewrite bool_decide_eq_false. tauto.
      * eexists. split; [|reflexivity].
        apply findDoc_Some in Hp as [_ Hid]. by destruct p.
    + by rewrite (deleteComment_refused _ _ _ _ Hc Hp Hn) in H.
  - unfold deleteComment in H. rewrite Hc in H. simpl in H.
    rewrite Hp in H.
    by destruct (bool_decide (Comment.author c = user req)).
Qed.

Lemma deleteComment_removes_witness :
  In Sample.c3
    (comments
       (deleteComment Sample.store
          (Sample.request "000000000000000000000032" "" Sample.alice ∅)).1)
  ↔ In Sample.c3 (comments Sample.store)
    ∧ Comment._id Sample.c3 ≠ Comment._id Sample.c2
    ∧ Comment.parent Sample.c3 ≠ Some (Comment._id Sample.c2).
Proof.
  eapply (proj1 (deleteComment_removes Sample.store
                   (Sample.request "000000000000000000000032" ""
                      Sample.alice ∅)
                   Sample.c2 _ _ eq_refl eq_refl)).
Defined.

(** ** Pages *)




(** ** The largest communities *)

Global Instance byMembers_total : Total byMembers.
Proof. intros a b. unfold byMembers. lia. Qed.

Global Instance byMembers_trans : Transitive byMembers.
Proof. intros a b c. unfold byMembers. lia. Qed.



(** * The score of a target under any sequence of votes *)

(** A vote handler leaves the store as it is or writes back the voted
    form of a stored target. *)
Lemma votePost_writes s req :
  (votePost s req).1 = s
  ∨ ∃ value p,
      In p (posts s)
      ∧ (votePost s req).1
        = set_posts
            (writeDoc Post._id (votedPost value (user req) p) (posts s)) s.
Proof.
  unfold votePost.
  destruct (numberOf (body req !! "value")) as [value|]; [|by left].
  destruct (negb (value =? 1) && negb (value =? -1)); [by left|].
  destruct (findById Post._id (posts s) (params_id req))
    as [[p|]|] eqn:E; [|by left|by left].
  right. exists value, p. apply findById_Some in E as [_ Hin].
  split; [done|]. simpl. unfold Post.save, votedPost. by destruct p.
Qed.

Lemma voteComment_writes s req :
  (voteComment s req).1 = s
  ∨ ∃ value c,
      In c (comments s)
      ∧ (voteComment s req).1
        = set_comments
            (writeDoc Comment._id (votedComment value (user req) c)
               (comments s)) s.
Proof.
  unfold voteComment.
  destruct (numberOf (body req !! "value")) as [value|]; [|by left].
  destruct (negb (value =? 1) && negb (value =? -1)); [by left|].
  destruct (findById Comment._id (comments s) (params_id req))
    as [[c|]|] eqn:E; [|by left|by left].
  right. exists value, c. apply findById_Some in E as [_ Hin].
  split; [done|]. simpl. unfold Comment.save, votedComment. by destruct c.
Qed.

Lemma vote_okAt id s v :
  (postOkAt id s → postOkAt id (vote s v))
  ∧ (commentOkAt id s → commentOkAt id (vote s v)).
Proof.
  destruct v as [req|req]; simpl.
  - destruct (votePost_writes s req) as [->|(value & p & Hin & ->)];
      [done|]. split; [|done].
    intros Hok x Hx Hid. simpl in Hx.
    apply in_writeDoc in Hx as [->|[Hx _]]; [|by apply Hok].
    apply votedPost_ok, Hok; [done|]. rewrite <- Hid. by destruct p.
  - destruct (voteComment_writes s req) as [->|(value & c & Hin & ->)];
      [done|]. split; [done|].
    intros Hok x Hx Hid. simpl in Hx.
    apply in_writeDoc in Hx as [->|[Hx _]]; [|by apply Hok].
    apply votedComment_ok, Hok; [done|]. rewrite <- Hid. by destruct c.
Qed.

Lemma votes_okAt id vs :
  ∀ s, (postOkAt id s → postOkAt id (votes s vs))
       ∧ (commentOkAt id s → commentOkAt id (votes s vs)).
Proof.
  induction vs as [|v vs IH]; intros s; [done|]. simpl.
  destruct (vote_okAt id s v) as [Hp Hc].
  destruct (IH (vote s v)) as [Hp' Hc']. split; auto.
Qed.

(** C6 does not hold of a post whose vote arrays came with its body.  Bob
    creates a post and lists himself twice among its upvotes; carol then
    upvotes it.  The stored score is 3, while the upvotes hold two users
    and the downvotes none. *)
Lemma voteScore_duplicates_counterexample :
  posts (votePost (createPost 77%N Sample.store doubleUpvote).1 upvoteNew).1
  = [Sample.post;
     Post.mk 77%N "hi" None None None Sample.bob 16%N
       [Sample.bob; Sample.bob; Sample.carol] [] 3 0]
  ∧ users [Sample.bob; Sample.bob; Sample.carol] - users [] = 2.
Proof. by vm_compute. Qed.

(** C6, amended.  Every vote with value 1 or -1 on a stored target is
    answered 200, records the vote by the rule of votes, and stores a
    score that is recomputed from the arrays as they are stored then,
    their difference in length, whatever the score was before; this is
    the score that the answer carries.  For a comment from its creation
    by [addComment], and for a post from its creation by [createPost]
    with no user twice in its vote arrays, after any finite sequence of
    vote requests, on any targets and answered in whatever way, the
    stored score is the number of users in the upvotes minus the number
    of users in the downvotes. *)
Theorem voteScore_recomputed :
  (∀ s req value p,
     numberOf (body req !! "value") = Some value →
     value = 1 ∨ value = -1 →
     findById Post._id (posts s) (params_id req) = Return (Some p) →
     ∃ p',
       votePost s req
       = (set_posts (writeDoc Post._id p' (posts s)) s,
          Success 200 (Votes (Post.voteScore p') (len (Post.upvotes p'))
                         (len (Post.downvotes p'))))
       ∧ findById Post._id (posts (votePost s req).1) (params_id req)
         = Return (Some p')
       ∧ voteRule (user req) value (Post.upvotes p) (Post.downvotes p)
           (Post.upvotes p') (Post.downvotes p')
       ∧ Post.voteScore p'
         = len (Post.upvotes p') - len (Post.downvotes p'))
  ∧ (∀ s req value c,
     numberOf (body req !! "value") = Some value →
     value = 1 ∨ value = -1 →
     findById Comment._id (comments s) (params_id req) = Return (Some c) →
     ∃ c',
       voteComment s req
       = (set_comments (writeDoc Comment._id c' (comments s)) s,
          Success 200 (Votes (Comment.voteScore c')
                         (len (Comment.upvotes c'))
                         (len (Comment.downvotes c'))))
       ∧ findById Comment._id (comments (voteComment s req).1)
           (params_id req) = Return (Some c')
       ∧ voteRule (user req) value (Comment.upvotes c) (Comment.downvotes c)
           (Comment.upvotes c') (Comment.downvotes c')
       ∧ Comment.voteScore c'
         = len (Comment.upvotes c') - len (Comment.downvotes c'))
  ∧ (∀ newId s req s' c vs c',
     addComment newId s req = (s', Success 201 (AComment c)) →
     In c' (comments (votes s' vs)) → Comment._id c' = Comment._id c →
     Comment.voteScore c'
     = users (Comment.upvotes c') - users (Comment.downvotes c'))
  ∧ (∀ newId s req s' p vs p',
     createPost newId s req = (s', Success 201 (APost p)) →
     NoDup (Post.upvotes p) → NoDup (Post.downvotes p) →
     In p' (posts (votes s' vs)) → Post._id p' = Post._id p →
     Post.voteScore p' = users (Post.upvotes p') - users (Post.downvotes p')).
Proof.
  split; [|split; [|split]].
  - intros s req value p Hn Hv Hp.
    exists (votedPost value (user req) p).
    rewrite (votePost_stored _ _ _ _ Hn Hv Hp). simpl.
    split; [done|]. split.
    { eapply findById_writeDoc; [done|]. by destruct p. }
    pose proof (castVote_rule value (user req) (Post.upvotes p)
                  (Post.downvotes p) Hv) as H.
    by destruct p.
  - intros s req value c Hn Hv Hc.
    exists (votedComment value (user req) c).
    rewrite (voteComment_stored _ _ _ _ Hn Hv Hc). simpl.
    split; [done|]. split.
    { eapply findById_writeDoc; [done|]. by destruct c. }
    pose proof (castVote_rule value (user req) (Comment.upvotes c)
                  (Comment.downvotes c) Hv) as H.
    by destruct c.
  - intros newId s req s' c vs c' H Hin Hid.
    assert (commentOk c) as Hc.
    { unfold addComment in H. destruct (invalid req); [done|].
      destruct (findById Post._id (posts s) (params_id req)) as [[p|]|];
        [|done|done].
      simpl in H. destruct (Comment.create _ _ _ _ _ _) as [c0|] eqn:Hc;
        [|done].
      simpl in H. injection H as _ <-. unfold Comment.create, bind in Hc.
      repeat match type of Hc with
             | match ?m with _ => _ end = _ =>
                 destruct m eqn:?; [|discriminate Hc]
             end.
      injection Hc as <-. repeat split; simpl; constructor. }
    apply addComment_created in H as (Hs & Hnew & Hfresh).
    assert (commentOkAt newId s') as Hok.
    { intros x Hx Hxid. rewrite Hs in Hx. apply in_app_iff in Hx as [Hx|Hx].
      - by apply (proj1 (findDoc_None _ _ _) Hfresh) in Hx.
      - destruct Hx as [<-|[]]. done. }
    apply (proj2 (votes_okAt newId vs s')) in Hok.
    destruct (Hok c' Hin) as (Hu & Hd & ->); [congruence|].
    by rewrite !users_NoDup.
  - intros newId s req s' p vs p' H Hnu Hnd Hin Hid.
    unfold createPost in H. destruct (invalid req); [done|].
    destruct (Community.findOneByBody _ _) as [[c|]|]; simpl in H;
      try done.
    destruct (createPostDocument _ _ _ _ _) as [p0|] eqn:Hp; simpl in H;
      [|done].
    injection H as <- <-.
    apply createPostDocument_Return in Hp as (_ & _ & Hscore & Hfresh).
    assert (postOkAt (Post._id p0) (set_posts (insertDoc p0 (posts s)) s))
      as Hok.
    { intros x Hx Hxid. simpl in Hx. unfold insertDoc in Hx.
      apply in_app_iff in Hx as [Hx|Hx].
      - by apply (proj1 (findDoc_None _ _ _) Hfresh) in Hx.
      - destruct Hx as [<-|[]]. done. }
    apply (proj1 (votes_okAt (Post._id p0) vs _)) in Hok.
    destruct (Hok p' Hin Hid) as (Hu & Hd & ->).
    by rewrite !users_NoDup.
Qed.

Lemma voteScore_recomputed_witness :
  ∃ p',
    votePost staleStore (upvote Sample.carol)
    = (set_posts (writeDoc Post._id p' (posts staleStore)) staleStore,
       Success 200 (Votes (Post.voteScore p') (len (Post.upvotes p'))
                      (len (Post.downvotes p'))))
    ∧ Post.voteScore p' = len (Post.upvotes p') - len (Post.downvotes p')
    ∧ Post.voteScore (Post.set_voteScore 9 Sample.post) = 9.
Proof.
  destruct (proj1 voteScore_recomputed staleStore (upvote Sample.carol) 1
              (Post.set_voteScore 9 Sample.post) eq_refl
              (or_introl eq_refl) eq_refl)
    as (p' & H & _ & _ & Hs).
  exists p'. split; [exact H|]. split; [exact Hs|reflexivity].
Defined.
